(** * svc-facs-httpd: registration bookkeeping and 404/405 miss resolution

    A shallow embedding of [src/index.js] (class [HttpdFacility]).

    JavaScript strings are modelled as [string] (a sequence of 8-bit
    characters); paths and HTTP method tokens are ASCII in practice.  The two
    closure-local maps [methodsByPath] and [patternsByHead] are [gmap]s keyed
    by strings (the code only ever calls [get], [has] and [set] on them), a
    JavaScript [Set] of method names is an insertion-ordered duplicate-free
    list, and the Fastify instance is the record of the calls it has accepted
    from the facility.  Fastify itself is outside the repository: which calls
    it accepts and which route options it runs the [onRoute] hooks with are
    parameters of the model ([FastifyLib]). *)

From Stdlib Require Import Ascii String.
From stdpp Require Import gmap strings list fin_maps.

Local Open Scope char_scope.

(** ** String primitives used by the source *)

Module Js.

(** [s.split(d)[0]]: the part of [s] before the first occurrence of [d]. *)
Fixpoint before_first (d : ascii) (s : string) : string :=
  match s with
  | EmptyString => EmptyString
  | String c s' =>
      if Ascii.eqb c d then EmptyString else String c (before_first d s')
  end.

(** [s || d] on strings: the empty string is the only falsy string. *)
Definition or_else (s d : string) : string :=
  match s with
  | EmptyString => d
  | String _ _ => s
  end.

(** [s.replace(/\/+$/, '')]: the leftmost match of [\/+$] is the maximal run
    of slashes that ends the string, so the replacement removes exactly that
    run. *)
Fixpoint strip_trailing_slashes (s : string) : string :=
  match s with
  | EmptyString => EmptyString
  | String c s' =>
      match strip_trailing_slashes s' with
      | EmptyString => if Ascii.eqb c "/" then EmptyString else String c EmptyString
      | String _ _ as r => String c r
      end
  end.

(** [s.includes(c)] for a one-character needle. *)
Fixpoint includes (c : ascii) (s : string) : bool :=
  match s with
  | EmptyString => false
  | String d s' => Ascii.eqb d c || includes c s'
  end.

(** [s.split('/')]: never the empty list; [''.split('/')] is [['']]. *)
Fixpoint split (d : ascii) (s : string) : list string :=
  match s with
  | EmptyString => [EmptyString]
  | String c s' =>
      if Ascii.eqb c d then EmptyString :: split d s'
      else match split d s' with
           | x :: xs => String c x :: xs
           | [] => [String c EmptyString]
           end
  end.

(** [xs.join(sep)]. *)
Fixpoint join (sep : string) (xs : list string) : string :=
  match xs with
  | [] => EmptyString
  | [x] => x
  | x :: xs' => x +:+ sep +:+ join sep xs'
  end.

(** Truthiness of a string, as used by [filter(Boolean)]. *)
Definition nonempty (s : string) : bool :=
  match s with
  | EmptyString => false
  | String _ _ => true
  end.

Definition starts_with (c : ascii) (s : string) : bool :=
  match s with
  | EmptyString => false
  | String d _ => Ascii.eqb d c
  end.

Fixpoint ends_with (c : ascii) (s : string) : bool :=
  match s with
  | EmptyString => false
  | String d EmptyString => Ascii.eqb d c
  | String _ s' => ends_with c s'
  end.

(** [String.prototype.toUpperCase] on the ASCII letters; other characters
    are left as they are. *)
Definition upper_char (c : ascii) : ascii :=
  let n := nat_of_ascii c in
  if (97 <=? n)%nat && (n <=? 122)%nat then ascii_of_nat (n - 32) else c.

Fixpoint toUpperCase (s : string) : string :=
  match s with
  | EmptyString => EmptyString
  | String c s' => String (upper_char c) (toUpperCase s')
  end.

End Js.

(** ** Path normalisation (line 111)

    [function normalize (p) {
       return (p.split('?')[0] || '/').replace(/\/+$/, '') || '/' }] *)

Definition normalize (p : string) : string :=
  Js.or_else
    (Js.strip_trailing_slashes (Js.or_else (Js.before_first "?" p) "/"))
    "/".

(** [head] (line 112): the first non-empty segment of the normalised path, or
    the empty string. *)
Definition head (p : string) : string :=
  match filter (fun s => Js.nonempty s = true) (Js.split "/" (normalize p)) with
  | s :: _ => s
  | [] => EmptyString
  end.

(** ** Pattern compilation (lines 113-117) *)

(** The characters of the class [[.*+?^${}()|[\]\\]]; they are also exactly
    the syntax characters of an ECMAScript pattern. *)
Definition is_special (c : ascii) : bool :=
  Js.includes c ".*+?^${}()|[]\".

(** [\w] without the unicode flag: [[A-Za-z0-9_]]. *)
Definition is_word (c : ascii) : bool :=
  let n := nat_of_ascii c in
  ((65 <=? n)%nat && (n <=? 90)%nat) || ((97 <=? n)%nat && (n <=? 122)%nat)
  || ((48 <=? n)%nat && (n <=? 57)%nat) || Ascii.eqb c "_".

(** [norm.replace(/[.*+?^${}()|[\]\\]/g, '\\$&')]: every special character
    is prefixed with a backslash. *)
Fixpoint esc (s : string) : string :=
  match s with
  | EmptyString => EmptyString
  | String c s' =>
      if is_special c then String "\" (String c (esc s')) else String c (esc s')
  end.

(** [esc.replace(/:(\w+)/g, '[^/]+')].  The scan goes from left to right; a
    colon followed by at least one word character starts a match, which takes
    the whole run of word characters.  [in_name] records that the scan is
    inside such a run. *)
Fixpoint replace_params (in_name : bool) (s : string) : string :=
  match s with
  | EmptyString => EmptyString
  | String c s' =>
      if in_name && is_word c then replace_params true s'
      else if Ascii.eqb c ":" && match s' with
                                 | String d _ => is_word d
                                 | EmptyString => false
                                 end
      then "[^/]+" +:+ replace_params true s'
      else String c (replace_params false s')
  end.

(** The pattern text handed to the [RegExp] constructor. *)
Definition toRegex_source (routePath : string) : string :=
  let norm := normalize routePath in
  let esc := esc norm in
  "^" +:+ replace_params false esc +:+ "$".

(** A compiled pattern of the shape [toRegex] can produce: anchored at both
    ends, a sequence of literal characters and [[^/]+] items. *)
Inductive atom : Type :=
  | AChar (c : ascii)
  | ANotSlashPlus.

Definition RegExp : Type := list atom.

(** The pattern body up to and including the closing [$].  An escaped syntax
    character is that character; [[^/]+] is the only class; any other use of a
    syntax character is outside the modelled fragment ([None]). *)
Fixpoint parse_body (s : string) : option RegExp :=
  match s with
  | EmptyString => None
  | String c s' =>
      if Ascii.eqb c "$" then
        match s' with EmptyString => Some [] | String _ _ => None end
      else if Ascii.eqb c "\" then
        match s' with
        | String d s'' =>
            if is_special d then cons (AChar d) <$> parse_body s'' else None
        | EmptyString => None
        end
      else if Ascii.eqb c "[" then
        match s' with
        | String c1 (String c2 (String c3 (String c4 s''))) =>
            if Ascii.eqb c1 "^" && Ascii.eqb c2 "/" && Ascii.eqb c3 "]"
               && Ascii.eqb c4 "+"
            then cons ANotSlashPlus <$> parse_body s''
            else None
        | _ => None
        end
      else if is_special c then None
      else cons (AChar c) <$> parse_body s'
  end.

(** [new RegExp(src)] on that fragment. *)
Definition RegExp_new (src : string) : option RegExp :=
  match src with
  | String c body => if Ascii.eqb c "^" then parse_body body else None
  | EmptyString => None
  end.

(** [regex.test(s)]: the whole of [s] must be consumed; [[^/]+] takes one or
    more characters other than [/], with backtracking over how many. *)
Fixpoint RegExp_test (s : string) (r : RegExp) {struct s} : bool :=
  match s with
  | EmptyString => match r with [] => true | _ :: _ => false end
  | String c s' =>
      match r with
      | [] => false
      | AChar a :: r' => Ascii.eqb a c && RegExp_test s' r'
      | ANotSlashPlus :: r' =>
          negb (Ascii.eqb c "/")
          && (RegExp_test s' (ANotSlashPlus :: r') || RegExp_test s' r')
      end
  end.

Definition toRegex (routePath : string) : option RegExp :=
  RegExp_new (toRegex_source routePath).

(** ** The miss-resolution registry (lines 91-92, 119-131) *)

(** A JavaScript [Set] of strings in insertion order. *)
Definition Set_add (s : list string) (m : string) : list string :=
  if decide (m ∈ s) then s else s ++ [m].

Definition Set_new (ms : list string) : list string :=
  foldl Set_add [] ms.

Record Pattern : Type := { regex : RegExp; methods : list string }.

Record Registry : Type := {
  methodsByPath : gmap string (list string);
  patternsByHead : gmap string (list Pattern)
}.

Definition empty_registry : Registry :=
  {| methodsByPath := ∅; patternsByHead := ∅ |}.

(** Opaque JavaScript values (option values, handler references). *)
Inductive jsval : Type :=
  | JUndefined
  | JNull
  | JBool (b : bool)
  | JNum (n : Z)
  | JStr (s : string)
  | JRef (id : nat).

Definition truthy (v : jsval) : bool :=
  match v with
  | JUndefined | JNull => false
  | JBool b => b
  | JNum n => negb (n =? 0)%Z
  | JStr s => Js.nonempty s
  | JRef _ => true
  end.

(** The [method] field of a route: one name or an array of names. *)
Inductive MethodField : Type :=
  | OneMethod (m : string)
  | ManyMethods (ms : list string).

(** [[].concat(route.method)] *)
Definition concat_method (m : MethodField) : list string :=
  match m with
  | OneMethod m => [m]
  | ManyMethods ms => ms
  end.

Record Route : Type := { method : MethodField; url : string; handler : jsval }.

(** Fastify hands the hook the route options with [path] an alias of [url]. *)
Definition path (r : Route) : string := url r.

Inductive Classification : Type := Static | Dynamic.

(** The test of line 122. *)
Definition classify (p : string) : Classification :=
  if negb (Js.includes ":" p) && negb (Js.includes "*" p) then Static else Dynamic.

(** The [onRoute] hook.  [None] stands for an exception thrown by the
    [RegExp] constructor. *)
Definition onRoute (route : Route) (reg : Registry) : option Registry :=
  let methods := Set_new (Js.toUpperCase <$> concat_method (method route)) in
  let p := normalize (path route) in
  match classify p with
  | Static =>
      let set := default [] (methodsByPath reg !! p) in
      let set := foldl Set_add set methods in
      Some {| methodsByPath := <[p := set]> (methodsByPath reg);
              patternsByHead := patternsByHead reg |}
  | Dynamic =>
      let bucket := default [] (patternsByHead reg !! head p) in
      re ← toRegex p;
      Some {| methodsByPath := methodsByPath reg;
              patternsByHead :=
                <[head p := bucket ++ [{| regex := re; methods := methods |}]]>
                  (patternsByHead reg) |}
  end.

(** The hook applied to a sequence of route declarations, in order. *)
Fixpoint onRoutes (routes : list Route) (reg : Registry) : option Registry :=
  match routes with
  | [] => Some reg
  | r :: rest => reg' ← onRoute r reg; onRoutes rest reg'
  end.

(** ** The not-found handler (lines 94-109, 133-143) *)

Inductive Outcome : Type :=
  | NotFound
  | MethodNotAllowed (allowed : list string).

(** The decision taken by the handler on the request URL. *)
Definition resolve (reg : Registry) (reqUrl : string) : Outcome :=
  let p := normalize reqUrl in
  match methodsByPath reg !! p with
  | Some ((_ :: _) as exact) => MethodNotAllowed exact
  | _ =>
      let bucket := default [] (patternsByHead reg !! head p) in
      match List.find (fun r => RegExp_test p (regex r)) bucket with
      | Some hit => MethodNotAllowed (methods hit)
      | None => NotFound
      end
  end.

Record Body : Type := { message : string; error : string; statusCode : nat }.

Definition sendByStatusCode (code : nat) (method route : string) : option Body :=
  if (code =? 404)%nat then
    Some {| message := "Route " +:+ method +:+ ":" +:+ route +:+ " not found";
            error := "Not Found"; statusCode := 404 |}
  else if (code =? 405)%nat then
    Some {| message := "Route " +:+ method +:+ ":" +:+ route +:+ " method not allowed";
            error := "Method Not Allowed"; statusCode := 405 |}
  else None.

Record Request : Type := { req_method : string; req_url : string }.

Record Reply : Type := {
  reply_code : nat;
  reply_headers : list (string * string);
  reply_payload : option Body
}.

Definition notFoundHandler (reg : Registry) (req : Request) : Reply :=
  match resolve reg (req_url req) with
  | MethodNotAllowed allowed =>
      {| reply_code := 405;
         reply_headers := [("Allow"%string, Js.join ", " allowed)];
         reply_payload := sendByStatusCode 405 (req_method req) (req_url req) |}
  | NotFound =>
      {| reply_code := 404;
         reply_headers := [];
         reply_payload := sendByStatusCode 404 (req_method req) (req_url req) |}
  end.

(** ** The facility (lines 34-188) *)

Inductive Error : Type :=
  | ERR_FACS_SERVER_HTTP_ALREADY_INITED
  | ERR_FACS_SERVER_HTTP_CREATE_DUP
  | RegExpSyntaxError
  | FastifyError.

Record Opts : Type := {
  logger : jsval;
  trustProxy : jsval;
  onBadMethod : jsval;
  staticRootPath : jsval;
  staticPrefix : jsval;
  staticConstraints : jsval;
  staticOn404File : jsval;
  addDefaultRoutes : jsval;
  port : jsval
}.

(** [this.mem]: the declarations accumulated before the server starts. *)
Record Mem : Type := {
  plugins : list (jsval * jsval);
  routes : list Route;
  decorators : list (jsval * jsval * jsval);
  hooks : list (string * jsval)
}.

Definition empty_mem : Mem :=
  {| plugins := []; routes := []; decorators := []; hooks := [] |}.

(** What a hook or a not-found handler installed on the server is: one of the
    two closures of the miss-resolution engine, or a reference supplied from
    outside. *)
Inductive HookHandler : Type :=
  | IndexRoutes
  | UserHandler (h : jsval).

Inductive NotFoundHandler : Type :=
  | ClassifyMiss
  | SendOn404File (file : jsval).

(** The calls the facility makes on the Fastify instance.  [CRegisterRoutes]
    is the registration of the anonymous plugin of lines 179-183. *)
Inductive Call : Type :=
  | CAddHook (name : string) (h : HookHandler)
  | CSetNotFoundHandler (h : NotFoundHandler)
  | CRegisterStatic (root prefix constraints : jsval)
  | CRegister (p0 p1 : jsval)
  | CDecorate (d0 d1 d2 : jsval)
  | CRoute (r : Route)
  | CRegisterRoutes
  | CListen (port : jsval).

(** The Fastify instance as the facility sees it: the options it was created
    with, the calls it has accepted so far, and the state of the two maps
    captured by the closures of lines 119-143 ([None] when they were never
    created). *)
Record Fastify : Type := {
  f_logger : jsval;
  f_trustProxy : jsval;
  f_calls : list Call;
  f_registry : option Registry
}.

(** What the facility cannot know about Fastify.  [on_call f c] tells, for a
    call [c] on the server [f], which route options Fastify runs the
    [onRoute] hooks with while it executes the call (the route itself, a HEAD
    route derived from a GET route, the routes of plugins that boot when
    [listen] is called, ...) and whether the call then returns ([true]) or
    throws.  [on_boot_end f] tells the same for what Fastify does after the
    anonymous plugin has run, until the promise of [listen] settles. *)
Record FastifyLib : Type := {
  on_call : Fastify → Call → list Route * bool;
  on_boot_end : Fastify → list Route * bool
}.

(** The facility, together with the Fastify it was loaded with
    ([require('fastify')], line 5). *)
Record Facility : Type := {
  fastify : FastifyLib;
  opts : Opts;
  conf_port : jsval;
  server : option Fastify;
  mem : Mem
}.

(** The constructor (lines 35-44). *)
Definition new_facility (lib : FastifyLib) (o : Opts) (conf_port : jsval) : Facility :=
  {| fastify := lib; opts := o; conf_port := conf_port; server := None;
     mem := empty_mem |}.

(** A computation over a state [S] that returns normally or throws. *)
Definition Run (S A : Type) : Type := S → (Error + A) * S.

Definition ret {S A} (a : A) : Run S A := fun s => (inr a, s).
Definition throw {S A} (e : Error) : Run S A := fun s => (inl e, s).
Definition bind {S A B} (m : Run S A) (k : A → Run S B) : Run S B :=
  fun s =>
    match m s with
    | (inr a, s') => k a s'
    | (inl e, s') => (inl e, s')
    end.
Definition modify {S} (f : S → S) : Run S unit := fun s => (inr tt, f s).
Definition when {S} (b : bool) (m : Run S unit) : Run S unit :=
  if b then m else ret tt.

Declare Scope run_scope.
Delimit Scope run_scope with run.
Notation "m ;; k" := (bind m (fun _ => k))
  (at level 100, k at level 200, right associativity) : run_scope.

(** [xs.forEach(f)] *)
Fixpoint forEach {S A} (xs : list A) (f : A → Run S unit) : Run S unit :=
  match xs with
  | [] => ret tt
  | x :: rest => bind (f x) (fun _ => forEach rest f)
  end.

Definition set_mem (m : Mem) (st : Facility) : Facility :=
  {| fastify := fastify st; opts := opts st; conf_port := conf_port st;
     server := server st; mem := m |}.

Definition set_server (f : Fastify) (st : Facility) : Facility :=
  {| fastify := fastify st; opts := opts st; conf_port := conf_port st;
     server := Some f; mem := mem st |}.

Definition push_route (r : Route) (m : Mem) : Mem :=
  {| plugins := plugins m; routes := routes m ++ [r];
     decorators := decorators m; hooks := hooks m |}.
Definition push_decorator (d : jsval * jsval * jsval) (m : Mem) : Mem :=
  {| plugins := plugins m; routes := routes m;
     decorators := decorators m ++ [d]; hooks := hooks m |}.
Definition push_plugin (p : jsval * jsval) (m : Mem) : Mem :=
  {| plugins := plugins m ++ [p]; routes := routes m;
     decorators := decorators m; hooks := hooks m |}.
Definition push_hook (h : string * jsval) (m : Mem) : Mem :=
  {| plugins := plugins m; routes := routes m;
     decorators := decorators m; hooks := hooks m ++ [h] |}.

(** [if (this.server) throw ...; this.mem.<list>.push(x)] *)
Definition register_in (push : Mem → Mem) : Run Facility unit :=
  fun st =>
    match server st with
    | Some _ => throw ERR_FACS_SERVER_HTTP_ALREADY_INITED st
    | None => modify (fun st => set_mem (push (mem st)) st) st
    end.

Definition addRoute (r : Route) : Run Facility unit :=
  register_in (push_route r).
Definition addDecorator (d : jsval * jsval * jsval) : Run Facility unit :=
  register_in (push_decorator d).
Definition addPlugin (p : jsval * jsval) : Run Facility unit :=
  register_in (push_plugin p).
Definition addHook (hookName : string) (handler : jsval) : Run Facility unit :=
  register_in (push_hook (hookName, handler)).

(** [Fastify({ logger, trustProxy })]; the factory is taken to return an
    instance. *)
Definition Fastify_new (logger trustProxy : jsval) : Fastify :=
  {| f_logger := logger; f_trustProxy := trustProxy;
     f_calls := []; f_registry := None |}.

(** The server has accepted the call [c]. *)
Definition accept (c : Call) : Run Fastify unit :=
  modify (fun f =>
    {| f_logger := f_logger f; f_trustProxy := f_trustProxy f;
       f_calls := f_calls f ++ [c]; f_registry := f_registry f |}).

Definition set_registry (reg : Registry) : Run Fastify unit :=
  modify (fun f =>
    {| f_logger := f_logger f; f_trustProxy := f_trustProxy f;
       f_calls := f_calls f; f_registry := Some reg |}).

Definition is_index_hook (c : Call) : bool :=
  match c with
  | CAddHook name IndexRoutes => String.eqb name "onRoute"
  | _ => false
  end.

Definition is_classify_handler (c : Call) : bool :=
  match c with
  | CSetNotFoundHandler ClassifyMiss => true
  | _ => false
  end.

(** Fastify runs the [onRoute] hooks with the route options [rs]: the
    indexing hook, when it is installed, updates the captured maps. *)
Definition run_hooks (rs : list Route) : Run Fastify unit :=
  fun f =>
    if existsb is_index_hook (f_calls f) then
      match f_registry f with
      | Some reg =>
          match onRoutes rs reg with
          | Some reg' => set_registry reg' f
          | None => throw RegExpSyntaxError f
          end
      | None => ret tt f
      end
    else ret tt f.

(** Fastify runs the hooks and then returns or throws. *)
Definition settle (effect : list Route * bool) : Run Fastify unit :=
  bind (run_hooks effect.1)
       (fun _ => if effect.2 then ret tt else throw FastifyError).

(** A call on the server: Fastify runs the hooks it runs for this call, and
    the call is accepted or throws. *)
Definition call (lib : FastifyLib) (c : Call) : Run Fastify unit :=
  fun f => bind (settle (on_call lib f c)) (fun _ => accept c) f.

(** [server.route(r)] *)
Definition server_route (lib : FastifyLib) (r : Route) : Run Fastify unit :=
  call lib (CRoute r).

(** The end of the boot, after the anonymous plugin has run. *)
Definition boot_end (lib : FastifyLib) : Run Fastify unit :=
  fun f => settle (on_boot_end lib f) f.

Definition DEFAULT_ROUTES : list Route :=
  [ {| method := OneMethod "GET"; url := "/echo"; handler := JRef 0 |} ].

(** Lines 90-144: the maps, the indexing hook and the not-found handler. *)
Definition install_miss_engine (lib : FastifyLib) : Run Fastify unit :=
  (set_registry empty_registry ;;
   call lib (CAddHook "onRoute" IndexRoutes) ;;
   call lib (CSetNotFoundHandler ClassifyMiss))%run.

(** Lines 146-187.  The anonymous plugin is registered and [listen] is
    called; the plugin's body, which forwards [mem.routes], runs while the
    server boots, and a throw inside it rejects the promise of [listen] like
    any other boot error. *)
Definition install_rest (lib : FastifyLib) (o : Opts) (conf_port : jsval) (m : Mem) :
    Run Fastify unit :=
  (when (truthy (staticRootPath o))
     (call lib (CRegisterStatic (staticRootPath o) (staticPrefix o)
                  (staticConstraints o)) ;;
      when (truthy (staticOn404File o))
        (call lib (CSetNotFoundHandler (SendOn404File (staticOn404File o))))) ;;
   forEach (plugins m) (fun p => call lib (CRegister p.1 p.2)) ;;
   forEach (decorators m) (fun d => call lib (CDecorate d.1.1 d.1.2 d.2)) ;;
   forEach (hooks m) (fun h => call lib (CAddHook h.1 (UserHandler h.2))) ;;
   when (truthy (addDefaultRoutes o))
     (forEach DEFAULT_ROUTES (server_route lib)) ;;
   call lib CRegisterRoutes ;;
   call lib (CListen (if truthy (port o) then port o else conf_port)) ;;
   forEach (routes m) (server_route lib) ;;
   boot_end lib)%run.

(** Lines 90-187, everything after [this.server = fastify]. *)
Definition configure (lib : FastifyLib) (o : Opts) (conf_port : jsval) (m : Mem) :
    Run Fastify unit :=
  (when (truthy (onBadMethod o)) (install_miss_engine lib) ;;
   install_rest lib o conf_port m)%run.

(** [startServer] (lines 78-188).  [this.server] refers to the instance the
    later calls mutate, so the facility ends up holding the configured
    instance whether or not configuration threw. *)
Definition startServer : Run Facility unit :=
  fun st =>
    match server st with
    | Some _ => throw ERR_FACS_SERVER_HTTP_CREATE_DUP st
    | None =>
        let instance := Fastify_new (logger (opts st)) (trustProxy (opts st)) in
        let '(res, instance) :=
          configure (fastify st) (opts st) (conf_port st) (mem st) instance in
        (res, set_server instance st)
    end.

(** ** The specification's wording, for comparison with the code *)

Module Spec.

(** "A path is Dynamic if any segment begins with a parameter marker or
    equals a wildcard marker; otherwise Static." *)
Definition classify (p : string) : Classification :=
  if existsb (fun seg => Js.starts_with ":" seg || String.eqb seg "*")
             (Js.split "/" p)
  then Dynamic else Static.

(** "Each literal segment of the template must match the corresponding
    literal segment of the candidate path exactly.  Each parameter segment
    matches exactly one candidate segment of any non-empty content containing
    no [/]." *)
Definition segment_accepts (t c : string) : bool :=
  if Js.starts_with ":" t then Js.nonempty c else String.eqb t c.

Fixpoint segments_accept (ts cs : list string) : bool :=
  match ts, cs with
  | [], [] => true
  | t :: ts', c :: cs' => segment_accepts t c && segments_accept ts' cs'
  | _, _ => false
  end.

(** "Segment counts must match", for a template without a wildcard. *)
Definition accepts (template candidate : string) : bool :=
  segments_accept (Js.split "/" template) (Js.split "/" candidate).

End Spec.

(** ** Shapes of template segments *)

Fixpoint all_chars (f : ascii → bool) (s : string) : bool :=
  match s with
  | EmptyString => true
  | String c s' => f c && all_chars f s'
  end.

(** A segment free of both markers. *)
Definition plain_segment (s : string) : bool :=
  negb (Js.includes ":" s) && negb (Js.includes "*" s).

(** A segment [:name] whose name is a non-empty run of word characters. *)
Definition param_segment (s : string) : bool :=
  match s with
  | String c name => Ascii.eqb c ":" && Js.nonempty name && all_chars is_word name
  | EmptyString => false
  end.

Definition well_shaped (template : string) : bool :=
  forallb (fun s => plain_segment s || param_segment s) (Js.split "/" template).

(** ** Route declarations used in the examples *)

Module Examples.

Definition route (m : string) (u : string) : Route :=
  {| method := OneMethod m; url := u; handler := JRef 1 |}.

Definition get_items : Route := route "GET" "/items".
Definition post_items : Route := route "post" "/items/".
Definition post_id : Route := route "POST" "/:id".
Definition post_item_id : Route := route "POST" "/items/:id".
Definition get_items_all : Route := route "GET" "/items/all".

(** A Fastify that accepts every call and runs the hooks with each route
    once. *)
Definition accepting : FastifyLib :=
  {| on_call := fun _ c => (match c with CRoute r => [r] | _ => [] end, true);
     on_boot_end := fun _ => ([], true) |}.

Definition is_not_found_call (c : Call) : bool :=
  match c with
  | CSetNotFoundHandler _ => true
  | _ => false
  end.

(** A Fastify that refuses a second not-found handler and runs the hooks,
    for a GET route, with the route and with a HEAD route of the same path. *)
Definition strict : FastifyLib :=
  {| on_call := fun f c =>
       match c with
       | CSetNotFoundHandler _ => ([], negb (existsb is_not_found_call (f_calls f)))
       | CRoute r =>
           (match method r with
            | OneMethod "GET" =>
                [r; {| method := OneMethod "HEAD"; url := url r; handler := handler r |}]
            | _ => [r]
            end, true)
       | _ => ([], true)
       end;
     on_boot_end := fun _ => ([], true) |}.

Definition opts_with (bad : jsval) : Opts :=
  {| logger := JBool false; trustProxy := JUndefined; onBadMethod := bad;
     staticRootPath := JUndefined; staticPrefix := JUndefined;
     staticConstraints := JUndefined; staticOn404File := JUndefined;
     addDefaultRoutes := JBool true; port := JNum 8080 |}.

Definition static_opts_with (bad : jsval) : Opts :=
  {| logger := JBool false; trustProxy := JUndefined; onBadMethod := bad;
     staticRootPath := JStr "/srv/www"; staticPrefix := JStr "/public";
     staticConstraints := JUndefined; staticOn404File := JStr "404.html";
     addDefaultRoutes := JBool true; port := JNum 8080 |}.

End Examples.

(** ** Compiled patterns, read off the normalised template

    [atoms_of] follows the same left-to-right scan as [replace_params] on the
    unescaped text; [toRegex_atoms] below shows it is what the constructor
    yields for the text [toRegex] builds. *)

Fixpoint atoms_of (in_name : bool) (s : string) : RegExp :=
  match s with
  | EmptyString => []
  | String c s' =>
      if in_name && is_word c then atoms_of true s'
      else if Ascii.eqb c ":" && match s' with
                                 | String d _ => is_word d
                                 | EmptyString => false
                                 end
      then ANotSlashPlus :: atoms_of true s'
      else AChar c :: atoms_of false s'
  end.

(** The pattern matching exactly the text [s]. *)
Fixpoint literal (s : string) : RegExp :=
  match s with
  | EmptyString => []
  | String c s' => AChar c :: literal s'
  end.

(** The compiled form of one well-shaped template segment. *)
Definition segment_pattern (t : string) : RegExp :=
  if Js.starts_with ":" t then [ANotSlashPlus] else literal t.

(** What follows a segment in a joined template: nothing, or a slash and the
    remaining segments. *)
Definition after_segment (rest : string) : RegExp :=
  match rest with
  | EmptyString => []
  | String c rest' => AChar c :: atoms_of false rest'
  end.

(** ** Declarations seen by the indexing hook *)

(** The method names, upper-cased, of the declarations whose normalised path
    is [p], in declaration order. *)
Definition declared_methods (p : string) (routes : list Route) : list string :=
  r ← routes;
  if decide (normalize (path r) = p)
  then Js.toUpperCase <$> concat_method (method r)
  else [].

(** The registry the hook has built once the given declarations have been
    forwarded to a server that started with empty maps. *)
Definition registry_of (routes : list Route) : Registry :=
  default empty_registry (onRoutes routes empty_registry).

(** ** The miss-resolution engine on a server *)

(** The maps exist, the indexing hook is installed on [onRoute] and the
    classifying handler is installed as not-found handler. *)
Definition engine_installed (f : Fastify) : Prop :=
  is_Some (f_registry f)
  ∧ existsb is_index_hook (f_calls f) = true
  ∧ existsb is_classify_handler (f_calls f) = true.

(** No maps, no indexing hook, no classifying handler. *)
Definition engine_absent (f : Fastify) : Prop :=
  f_registry f = None
  ∧ existsb is_index_hook (f_calls f) = false
  ∧ existsb is_classify_handler (f_calls f) = false.

(** Whatever [m] does from a state satisfying [P], returning or throwing,
    it leaves a state satisfying [P]. *)
Definition keeps {S} (P : S → Prop) (m : Run S unit) : Prop :=
  ∀ s, P s → P (m s).2.

(** ** Further readings of the source *)

(** The number of occurrences of [c] in [s]. *)
Fixpoint count_char (c : ascii) (s : string) : nat :=
  match s with
  | EmptyString => 0
  | String d s' => (if Ascii.eqb d c then 1 else 0) + count_char c s'
  end.

(** The number of literal slashes a compiled pattern asks for. *)
Fixpoint slash_atoms (r : RegExp) : nat :=
  match r with
  | [] => 0
  | AChar c :: r' => (if Ascii.eqb c "/" then 1 else 0) + slash_atoms r'
  | ANotSlashPlus :: r' => slash_atoms r'
  end.

(** The bucket entry the hook pushes for a Dynamic declaration (line 128). *)
Definition pattern_of (r : Route) : Pattern :=
  {| regex := atoms_of false (normalize (path r));
     methods := Set_new (Js.toUpperCase <$> concat_method (method r)) |}.

(** The declaration is Dynamic and the hook files it under the key [h]. *)
Definition filed_under (h : string) (r : Route) : bool :=
  match classify (normalize (path r)) with
  | Dynamic => String.eqb (head (normalize (path r))) h
  | Static => false
  end.

(** The first declaration, in declaration order, that is filed under the
    first segment of [p] and whose compiled pattern accepts [p]. *)
Definition first_match (routes : list Route) (p : string) : option Route :=
  List.find
    (fun r => filed_under (head p) r && RegExp_test p (regex (pattern_of r)))
    routes.

(** The handler's decision read off the list of declarations: the methods
    declared for the path when it is Static and has some, otherwise the
    methods of the first matching Dynamic declaration. *)
Definition resolve_declared (routes : list Route) (reqUrl : string) : Outcome :=
  let p := normalize reqUrl in
  match match classify p with
        | Static => Set_new (declared_methods p routes)
        | Dynamic => []
        end
  with
  | (_ :: _) as exact => MethodNotAllowed exact
  | [] =>
      match first_match routes p with
      | Some r => MethodNotAllowed (methods (pattern_of r))
      | None => NotFound
      end
  end.

(** What holds of every registry the hook builds. *)
Definition registry_ok (reg : Registry) : Prop :=
  (∀ p set, methodsByPath reg !! p = Some set →
     classify p = Static ∧ normalize p = p ∧ NoDup set
     ∧ ∀ m, m ∈ set → Js.toUpperCase m = m)
  ∧ (∀ h bucket, patternsByHead reg !! h = Some bucket →
       bucket ≠ []
       ∧ ∀ pat, pat ∈ bucket →
           NoDup (methods pat) ∧ ∀ m, m ∈ methods pat → Js.toUpperCase m = m).

(** The first non-empty segment of a split path, or the empty string: what
    [head] returns for the segments of the normalised path. *)
Definition first_segment (segments : list string) : string :=
  match filter (fun s => Js.nonempty s = true) segments with
  | s :: _ => s
  | [] => EmptyString
  end.

(** One registration call made by the host application before the start. *)
Inductive Registration : Type :=
  | RegRoute (r : Route)
  | RegDecorator (d : jsval * jsval * jsval)
  | RegPlugin (p : jsval * jsval)
  | RegHook (hookName : string) (handler : jsval).

Definition register (x : Registration) : Run Facility unit :=
  match x with
  | RegRoute r => addRoute r
  | RegDecorator d => addDecorator d
  | RegPlugin p => addPlugin p
  | RegHook hookName handler => addHook hookName handler
  end.

Definition routes_of (xs : list Registration) : list Route :=
  x ← xs; match x with RegRoute r => [r] | _ => [] end.
Definition decorators_of (xs : list Registration) : list (jsval * jsval * jsval) :=
  x ← xs; match x with RegDecorator d => [d] | _ => [] end.
Definition plugins_of (xs : list Registration) : list (jsval * jsval) :=
  x ← xs; match x with RegPlugin p => [p] | _ => [] end.
Definition hooks_of (xs : list Registration) : list (string * jsval) :=
  x ← xs; match x with RegHook n h => [(n, h)] | _ => [] end.

(** The calls [startServer] makes on a new server, in order (lines 90-187),
    when none of them throws.  The routes of [mem.routes] come after
    [listen]: they are forwarded from inside the anonymous plugin. *)
Definition forwarded_calls (st : Facility) : list Call :=
  let o := opts st in
  (if truthy (onBadMethod o)
   then [CAddHook "onRoute" IndexRoutes; CSetNotFoundHandler ClassifyMiss]
   else [])
  ++ (if truthy (staticRootPath o)
      then CRegisterStatic (staticRootPath o) (staticPrefix o) (staticConstraints o)
           :: (if truthy (staticOn404File o)
               then [CSetNotFoundHandler (SendOn404File (staticOn404File o))]
               else [])
      else [])
  ++ ((fun p => CRegister p.1 p.2) <$> plugins (mem st))
  ++ ((fun d => CDecorate d.1.1 d.1.2 d.2) <$> decorators (mem st))
  ++ ((fun h => CAddHook h.1 (UserHandler h.2)) <$> hooks (mem st))
  ++ (if truthy (addDefaultRoutes o) then CRoute <$> DEFAULT_ROUTES else [])
  ++ [CRegisterRoutes; CListen (if truthy (port o) then port o else conf_port st)]
  ++ (CRoute <$> routes (mem st)).

(** [m] leaves the options of the server alone and has calls of [l] accepted,
    in order: all of them when it returns, an initial part when it throws. *)
Definition traces (m : Run Fastify unit) (l : list Call) : Prop :=
  ∀ f, f_logger (m f).2 = f_logger f
       ∧ f_trustProxy (m f).2 = f_trustProxy f
       ∧ ∃ accepted, f_calls (m f).2 = f_calls f ++ accepted
                     ∧ accepted `prefix_of` l
                     ∧ ((m f).1 = inr tt → accepted = l).

(** The maps of the server, when it has any, are what the hook builds from
    empty maps out of some sequence of route options. *)
Definition hook_built (f : Fastify) : Prop :=
  ∀ reg, f_registry f = Some reg →
         ∃ fed, onRoutes fed empty_registry = Some reg.

(** The declaration lists after the registrations [xs] have been added to
    those of [m]. *)
Definition extend_mem (m : Mem) (xs : list Registration) : Mem :=
  {| plugins := plugins m ++ plugins_of xs;
     routes := routes m ++ routes_of xs;
     decorators := decorators m ++ decorators_of xs;
     hooks := hooks m ++ hooks_of xs |}.

(** The second task of [_stop] (lines 193-197): the server, when there is
    one, is closed; [this.server] is not reassigned.  The result tells whether
    [close] was called. *)
Definition stop_task (st : Facility) : bool * Facility :=
  match server st with
  | Some _ => (true, st)
  | None => (false, st)
  end.

(** * Properties *)

(** ** Normalisation *)

Section Normalize.

Local Open Scope string_scope.

Lemma includes_before_first d s : Js.includes d (Js.before_first d s) = false.
Proof.
  induction s as [|c s IH]; simpl; [done|].
  destruct (Ascii.eqb c d) eqn:E; simpl; [done|]. by rewrite E.
Qed.

Lemma before_first_id d s : Js.includes d s = false → Js.before_first d s = s.
Proof.
  induction s as [|c s IH]; simpl; [done|].
  destruct (Ascii.eqb c d); simpl; [done|]. intros H. by rewrite IH.
Qed.

Lemma includes_strip c s :
  Js.includes c s = false → Js.includes c (Js.strip_trailing_slashes s) = false.
Proof.
  induction s as [|d s IH]; simpl; [done|].
  intros [Hd Hs]%orb_false_iff. specialize (IH Hs).
  destruct (Js.strip_trailing_slashes s) as [|e r].
  - destruct (Ascii.eqb d "/"); simpl; [done|]. by rewrite Hd.
  - simpl in *. by rewrite Hd, IH.
Qed.

Lemma ends_with_strip s : Js.ends_with "/" (Js.strip_trailing_slashes s) = false.
Proof.
  induction s as [|d s IH]; simpl; [done|].
  destruct (Js.strip_trailing_slashes s) as [|e r].
  - destruct (Ascii.eqb d "/") eqn:E; simpl; [done|]. by rewrite E.
  - done.
Qed.

Lemma strip_id s : Js.ends_with "/" s = false → Js.strip_trailing_slashes s = s.
Proof.
  induction s as [|d s IH]; simpl; [done|].
  destruct s as [|e r].
  - simpl. by intros ->.
  - intros H. by rewrite (IH H).
Qed.

Lemma strip_idemp s :
  Js.strip_trailing_slashes (Js.strip_trailing_slashes s) = Js.strip_trailing_slashes s.
Proof. apply strip_id, ends_with_strip. Qed.

Lemma starts_with_strip c s :
  Js.strip_trailing_slashes s ≠ EmptyString →
  Js.starts_with c (Js.strip_trailing_slashes s) = Js.starts_with c s.
Proof.
  destruct s as [|d s]; simpl; [done|].
  destruct (Js.strip_trailing_slashes s); [|done].
  by destruct (Ascii.eqb d "/").
Qed.

Lemma normalize_nonempty raw : normalize raw ≠ EmptyString.
Proof.
  unfold normalize.
  by destruct (Js.strip_trailing_slashes _).
Qed.

Lemma normalize_no_query raw : Js.includes "?" (normalize raw) = false.
Proof.
  unfold normalize.
  assert (Js.includes "?" (Js.or_else (Js.before_first "?" raw) "/") = false) as H.
  { pose proof (includes_before_first "?" raw) as H.
    by destruct (Js.before_first "?" raw). }
  apply includes_strip in H.
  by destruct (Js.strip_trailing_slashes _).
Qed.

Lemma normalize_trailing raw :
  Js.ends_with "/" (normalize raw) = true → normalize raw = "/".
Proof.
  unfold normalize.
  pose proof (ends_with_strip (Js.or_else (Js.before_first "?" raw) "/")) as H.
  destruct (Js.strip_trailing_slashes _); simpl; [done|].
  simpl in H. congruence.
Qed.

Lemma normalize_leading raw :
  Js.starts_with "/" raw = true ∨ Js.before_first "?" raw = EmptyString →
  Js.starts_with "/" (normalize raw) = true.
Proof.
  unfold normalize. intros H.
  destruct (Js.strip_trailing_slashes _) as [|c r] eqn:E; [done|].
  simpl Js.or_else.
  rewrite <- E, starts_with_strip by (by rewrite E).
  destruct H as [H|H]; [|by rewrite H].
  destruct raw as [|d raw]; [done|]. simpl in *.
  apply Ascii.eqb_eq in H. by subst d.
Qed.

(** A non-empty text without [?] and without a trailing slash, or the root
    itself, is left as it is. *)
Lemma normalize_id s :
  s ≠ EmptyString →
  Js.includes "?" s = false →
  (Js.ends_with "/" s = true → s = "/") →
  normalize s = s.
Proof.
  intros Hne Hq Ht. unfold normalize.
  rewrite (before_first_id _ _ Hq).
  destruct s as [|c r]; [done|]. cbn [Js.or_else].
  destruct (Js.ends_with "/" (String c r)) eqn:Hend.
  - by rewrite (Ht eq_refl).
  - by rewrite strip_id.
Qed.

Lemma normalize_fixed p : normalize (normalize p) = normalize p.
Proof.
  apply normalize_id;
    [apply normalize_nonempty|apply normalize_no_query|apply normalize_trailing].
Qed.

(** C8.  Normalisation is idempotent: normalising an already normalised path
    returns it unchanged, for every input string. *)
Theorem normalize_idempotent (p : string) :
  normalize (normalize p) = normalize p.
Proof.
  pose proof (normalize_nonempty p) as Hne.
  pose proof (normalize_no_query p) as Hq.
  pose proof (normalize_trailing p) as Ht.
  destruct (normalize p) as [|c r] eqn:E; [done|].
  by apply normalize_id.
Qed.

(** C4 (as amended).  For every input string the normalised path is
    non-empty, has no query component, and ends with a slash only when it is
    the root; it begins with a slash whenever the input does, or whenever the
    part of the input before the first question mark is empty. *)
Theorem normalize_shape (raw : string) :
  normalize raw ≠ EmptyString
  ∧ Js.includes "?" (normalize raw) = false
  ∧ (Js.ends_with "/" (normalize raw) = true → normalize raw = "/")
  ∧ (Js.starts_with "/" raw = true ∨ Js.before_first "?" raw = EmptyString →
     Js.starts_with "/" (normalize raw) = true).
Proof.
  split; [apply normalize_nonempty|].
  split; [apply normalize_no_query|].
  split; [apply normalize_trailing|apply normalize_leading].
Qed.

Lemma normalize_shape_witness :
  Js.starts_with "/" (normalize "/a/b/?x=1") = true
  ∧ Js.starts_with "/" (normalize EmptyString) = true.
Proof.
  split.
  - apply (normalize_shape "/a/b/?x=1"). left. reflexivity.
  - apply (normalize_shape EmptyString). right. reflexivity.
Defined.

(** C4, as first stated, fails: an input that does not begin with a slash is
    returned without one. *)
Lemma normalize_leading_slash_counterexample :
  normalize "abc" = "abc" ∧ Js.starts_with "/" (normalize "abc") = false.
Proof. split; reflexivity. Qed.

End Normalize.

(** ** Pattern compilation *)

Section Compile.

Local Open Scope string_scope.

Lemma special_cases c :
  is_special c = true →
  c ∈ ["."; "*"; "+"; "?"; "^"; "$"; "{"; "}"; "("; ")"; "|"; "["; "]"; "\"]%char.
Proof.
  unfold is_special. cbn [Js.includes]. intros H.
  rewrite !orb_true_iff in H. rewrite !Ascii.eqb_eq in H.
  rewrite !elem_of_cons.
  repeat (destruct H as [<-|H]; [auto 20|]). done.
Qed.

Lemma special_not_word c : is_special c = true → is_word c = false.
Proof.
  intros H%special_cases.
  repeat (apply elem_of_cons in H as [->|H]; [reflexivity|]).
  by apply elem_of_nil in H.
Qed.

Lemma special_not_colon c : is_special c = true → Ascii.eqb c ":" = false.
Proof.
  intros H%special_cases.
  repeat (apply elem_of_cons in H as [->|H]; [reflexivity|]).
  by apply elem_of_nil in H.
Qed.

Lemma not_special_neq c d :
  is_special c = false → is_special d = true → Ascii.eqb c d = false.
Proof.
  intros Hc Hd. apply Ascii.eqb_neq. intros ->. congruence.
Qed.

Lemma esc_head_word s :
  match esc s with String d _ => is_word d | EmptyString => false end
  = match s with String d _ => is_word d | EmptyString => false end.
Proof.
  destruct s as [|c s]; simpl; [done|].
  destruct (is_special c) eqn:E; [|done].
  by rewrite (special_not_word _ E).
Qed.

Lemma replace_params_escaped b c s :
  is_special c = true →
  replace_params b (String "\" (String c s))
  = String "\" (String c (replace_params false s)).
Proof.
  intros Hc. cbn [replace_params].
  change (is_word "\") with false. change (Ascii.eqb "\" ":") with false.
  rewrite (special_not_colon _ Hc), andb_false_r. done.
Qed.

Lemma parse_replace_esc s b :
  parse_body (replace_params b (esc s) +:+ "$") = Some (atoms_of b s).
Proof.
  revert b. induction s as [|c s IH]; intros b; [done|].
  cbn [esc atoms_of].
  destruct (is_special c) eqn:Hc.
  - rewrite (special_not_word _ Hc), (special_not_colon _ Hc), andb_false_r.
    cbn [andb]. rewrite replace_params_escaped by done.
    change (parse_body (String "\" (String c (replace_params false (esc s))) +:+ "$"))
      with (if is_special c
            then cons (AChar c) <$> parse_body (replace_params false (esc s) +:+ "$")
            else None).
    by rewrite Hc, IH.
  - cbn [replace_params]. rewrite esc_head_word.
    destruct (b && is_word c); [apply IH|].
    destruct (Ascii.eqb c ":" && _) eqn:Hp.
    + change (parse_body (("[^/]+" +:+ replace_params true (esc s)) +:+ "$"))
        with (cons ANotSlashPlus <$> parse_body (replace_params true (esc s) +:+ "$")).
      by rewrite IH.
    + change (String c ?x +:+ ?y) with (String c (x +:+ y)).
      cbn [parse_body].
      rewrite !(not_special_neq c) by done.
      by rewrite Hc, IH.
Qed.

(** The constructor never throws on the text [toRegex] builds, and the
    compiled pattern is the one read off the normalised template. *)
Lemma toRegex_atoms routePath :
  toRegex routePath = Some (atoms_of false (normalize routePath)).
Proof.
  unfold toRegex, toRegex_source.
  change (RegExp_new ("^" +:+ ?x)) with (parse_body x).
  apply parse_replace_esc.
Qed.

End Compile.

(** ** Matching *)

Section Matching.

Local Open Scope string_scope.
Local Open Scope list_scope.

Lemma test_nil p : RegExp_test p [] = true ↔ p = EmptyString.
Proof. by destruct p. Qed.

Lemma test_char p c r :
  RegExp_test p (AChar c :: r) = true
  ↔ ∃ p', p = String c p' ∧ RegExp_test p' r = true.
Proof.
  destruct p as [|d p]; simpl.
  - split; [done|]. by intros (p' & ? & _).
  - rewrite andb_true_iff, Ascii.eqb_eq. split.
    + intros [-> H]. eauto.
    + intros (p' & [= -> ->] & H). done.
Qed.

Lemma test_literal t p r :
  RegExp_test p (literal t ++ r) = true
  ↔ ∃ p', p = t +:+ p' ∧ RegExp_test p' r = true.
Proof.
  revert p. induction t as [|c t IH]; intros p.
  - simpl. split; [eauto|]. by intros (p' & -> & H).
  - cbn [literal app]. rewrite test_char. split.
    + intros (p1 & -> & (p' & -> & H)%IH). eauto.
    + intros (p' & -> & H). exists (t +:+ p'). split; [done|]. apply IH. eauto.
Qed.

Lemma test_not_slash p r :
  RegExp_test p (ANotSlashPlus :: r) = true
  ↔ ∃ x p', x ≠ EmptyString ∧ Js.includes "/" x = false ∧ p = x +:+ p'
            ∧ RegExp_test p' r = true.
Proof.
  induction p as [|c p IH].
  - simpl. split; [done|]. intros (x & p' & Hx & _ & Hp & _). by destruct x.
  - cbn [RegExp_test].
    rewrite andb_true_iff, negb_true_iff, orb_true_iff, IH. split.
    + intros [Hc [(x & p' & Hx & Hs & -> & H)|H]].
      * exists (String c x), p'. simpl. by rewrite Hc, Hs.
      * exists (String c EmptyString), p. simpl. by rewrite Hc.
    + intros (x & p' & Hx & Hs & Hp & H).
      destruct x as [|d x]; [done|]. simpl in Hs, Hp.
      injection Hp as <- ->. apply orb_false_iff in Hs as [Hd Hs].
      split; [done|]. destruct x as [|e x].
      * by right.
      * left. exists (String e x), p'. done.
Qed.

Lemma atoms_plain t rest :
  Js.includes ":" t = false →
  atoms_of false (t +:+ rest) = literal t ++ atoms_of false rest.
Proof.
  induction t as [|c t IH]; [done|].
  cbn [Js.includes]. intros [Hc Ht]%orb_false_iff.
  change (String c t +:+ rest) with (String c (t +:+ rest)).
  cbn [atoms_of literal andb app]. rewrite Hc. cbn [andb]. by rewrite IH.
Qed.

Lemma atoms_name name rest :
  all_chars is_word name = true →
  atoms_of true (name +:+ rest) = atoms_of true rest.
Proof.
  induction name as [|c name IH]; [done|].
  cbn [all_chars]. intros [Hc Hn]%andb_true_iff.
  change (String c name +:+ rest) with (String c (name +:+ rest)).
  cbn [atoms_of]. rewrite Hc. cbn [andb]. by apply IH.
Qed.

Lemma atoms_param name rest :
  name ≠ EmptyString → all_chars is_word name = true →
  atoms_of false (String ":" (name +:+ rest)) = ANotSlashPlus :: atoms_of true rest.
Proof.
  intros Hne Hw. cbn [atoms_of andb].
  change (Ascii.eqb ":" ":") with true. cbn [andb].
  destruct name as [|c name]; [done|].
  change (String c name +:+ rest) with (String c (name +:+ rest)).
  cbn [all_chars] in Hw. apply andb_true_iff in Hw as [Hc Hn].
  rewrite Hc. f_equal.
  change (String c (name +:+ rest)) with (String c name +:+ rest).
  apply atoms_name. cbn [all_chars]. by rewrite Hc.
Qed.

Lemma split_no_slash x : Js.includes "/" x = false → Js.split "/" x = [x].
Proof.
  induction x as [|c x IH]; [done|].
  cbn [Js.includes Js.split]. intros [Hc Hx]%orb_false_iff.
  by rewrite Hc, IH.
Qed.

Lemma split_app x p :
  Js.includes "/" x = false →
  Js.split "/" (x +:+ String "/" p) = x :: Js.split "/" p.
Proof.
  induction x as [|c x IH]; [done|].
  cbn [Js.includes]. intros [Hc Hx]%orb_false_iff.
  change (String c x +:+ ?y) with (String c (x +:+ y)).
  cbn [Js.split]. by rewrite Hc, IH.
Qed.

Lemma split_inv p :
  match Js.split "/" p with
  | [] => False
  | [c] => p = c ∧ Js.includes "/" c = false
  | c :: cs =>
      ∃ p', p = c +:+ String "/" p' ∧ Js.split "/" p' = cs
            ∧ Js.includes "/" c = false
  end.
Proof.
  induction p as [|c p IH]; [done|].
  cbn [Js.split]. destruct (Ascii.eqb c "/") eqn:Hc.
  - apply Ascii.eqb_eq in Hc as ->.
    destruct (Js.split "/" p) as [|d ds] eqn:E; [done|].
    exists p. done.
  - destruct (Js.split "/" p) as [|d [|d' ds]]; [done| |].
    + destruct IH as [-> Hd]. cbn [Js.includes]. by rewrite Hc.
    + destruct IH as (p' & -> & Hp' & Hd). exists p'.
      cbn [Js.includes]. by rewrite Hc.
Qed.

Lemma split_nonempty p : Js.split "/" p ≠ [].
Proof. pose proof (split_inv p). by destruct (Js.split "/" p). Qed.

Lemma split_segments_no_slash p :
  Forall (fun s => Js.includes "/" s = false) (Js.split "/" p).
Proof.
  induction p as [|c p IH]; [by repeat constructor|].
  cbn [Js.split]. destruct (Ascii.eqb c "/") eqn:Hc.
  - by constructor.
  - destruct (Js.split "/" p) as [|d ds] eqn:E; [by apply split_nonempty in E|].
    inversion IH; subst. constructor; [|done].
    cbn [Js.includes]. by rewrite Hc.
Qed.

Lemma join_cons sep x y ys :
  Js.join sep (x :: y :: ys) = x +:+ sep +:+ Js.join sep (y :: ys).
Proof. done. Qed.

Lemma join_split p : Js.join "/" (Js.split "/" p) = p.
Proof.
  induction p as [|c p IH]; [done|].
  cbn [Js.split]. destruct (Ascii.eqb c "/") eqn:Hc.
  - apply Ascii.eqb_eq in Hc as ->.
    destruct (Js.split "/" p) as [|d ds] eqn:E; [by apply split_nonempty in E|].
    by rewrite join_cons, IH.
  - destruct (Js.split "/" p) as [|d [|d' ds]] eqn:E; [by apply split_nonempty in E| |].
    + simpl in *. by rewrite IH.
    + rewrite join_cons in *. by rewrite <- IH.
Qed.

End Matching.

(** ** Segment-wise reading of compiled templates *)

Section Segments.

Local Open Scope string_scope.
Local Open Scope list_scope.

Lemma append_empty_r (s : string) : s +:+ EmptyString = s.
Proof.
  induction s as [|c s IH]; [done|].
  change (String c s +:+ EmptyString) with (String c (s +:+ EmptyString)). by rewrite IH.
Qed.

Lemma starts_with_includes c s : Js.includes c s = false → Js.starts_with c s = false.
Proof. destruct s; simpl; [done|]. by intros [? _]%orb_false_iff. Qed.

Lemma atoms_segment t rest :
  plain_segment t || param_segment t = true →
  rest = EmptyString ∨ (∃ rest', rest = String "/" rest') →
  atoms_of false (t +:+ rest) = segment_pattern t ++ after_segment rest.
Proof.
  intros Hshape Hrest. unfold segment_pattern.
  destruct (plain_segment t) eqn:Hplain.
  - apply andb_true_iff in Hplain as [Hcolon%negb_true_iff _].
    rewrite (starts_with_includes _ _ Hcolon), atoms_plain by done.
    f_equal. by destruct Hrest as [->|[rest' ->]].
  - simpl in Hshape. destruct t as [|c name]; [done|].
    cbn [param_segment] in Hshape.
    apply andb_true_iff in Hshape as [[->%Ascii.eqb_eq Hne]%andb_true_iff Hw].
    change (String ":" name +:+ rest) with (String ":" (name +:+ rest)).
    rewrite atoms_param by (done || by destruct name).
    change (Js.starts_with ":" (String ":" name)) with true. cbn [app].
    f_equal. by destruct Hrest as [->|[rest' ->]].
Qed.

Lemma test_segment t p r :
  plain_segment t || param_segment t = true →
  Js.includes "/" t = false →
  RegExp_test p (segment_pattern t ++ r) = true
  ↔ ∃ x p', p = x +:+ p' ∧ Js.includes "/" x = false
            ∧ Spec.segment_accepts t x = true ∧ RegExp_test p' r = true.
Proof.
  intros Hshape Hslash. unfold segment_pattern, Spec.segment_accepts.
  destruct (Js.starts_with ":" t) eqn:Hst.
  - cbn [app]. rewrite test_not_slash. split.
    + intros (x & p' & Hx & Hs & -> & H). exists x, p'. by destruct x.
    + intros (x & p' & -> & Hs & Hx & H). exists x, p'. by destruct x.
  - rewrite test_literal. split.
    + intros (p' & -> & H). exists t, p'. by rewrite String.eqb_refl.
    + intros (x & p' & -> & _ & ->%String.eqb_eq & H). eauto.
Qed.

Lemma segments_accept_compiled ts :
  ts ≠ [] →
  Forall (fun s => Js.includes "/" s = false) ts →
  forallb (fun s => plain_segment s || param_segment s) ts = true →
  ∀ p, RegExp_test p (atoms_of false (Js.join "/" ts)) = true
       ↔ Spec.segments_accept ts (Js.split "/" p) = true.
Proof.
  induction ts as [|t ts IH]; [done|].
  intros _ Hslash Hshape p.
  apply Forall_cons in Hslash as [Ht Hts].
  cbn [forallb] in Hshape. apply andb_true_iff in Hshape as [Hsh Hshs].
  pose proof (split_inv p) as Hinv.
  destruct ts as [|t2 ts].
  - cbn [Js.join]. rewrite <- (append_empty_r t) at 1.
    rewrite atoms_segment, test_segment by (done || by left).
    cbn [after_segment]. split.
    + intros (x & p' & -> & Hx & Hacc & ->%test_nil).
      rewrite append_empty_r, split_no_slash by done.
      cbn [Spec.segments_accept]. by rewrite Hacc.
    + destruct (Js.split "/" p) as [|c [|c' cs]]; cbn [Spec.segments_accept];
        [done| |by rewrite andb_false_r].
      rewrite andb_true_r. intros Hacc. destruct Hinv as [-> Hc].
      exists c, EmptyString. by rewrite append_empty_r.
  - rewrite join_cons.
    rewrite atoms_segment, test_segment by (done || right; eauto).
    cbn [after_segment]. specialize (IH ltac:(done) Hts Hshs). split.
    + intros (x & p1 & -> & Hx & Hacc & (p' & -> & H)%test_char).
      rewrite split_app by done. cbn [Spec.segments_accept].
      rewrite Hacc. by apply IH.
    + destruct (Js.split "/" p) as [|c [|c' cs]]; cbn [Spec.segments_accept];
        [done|by rewrite andb_false_r|].
      intros [Hacc Hrest]%andb_true_iff.
      destruct Hinv as (p' & -> & Hp' & Hc).
      exists c, (String "/" p'). repeat split; [done..|].
      apply test_char. exists p'. split; [done|]. apply IH. by rewrite Hp'.
Qed.

(** C7 (as amended).  For every template whose normalised form consists only
    of marker-free segments and of segments [:name] with [name] a non-empty
    run of word characters, the pattern compiles, and it accepts a candidate
    path exactly when template and candidate have the same number of
    segments, every marker-free segment equals the candidate's, and every
    [:name] segment faces a non-empty candidate segment. *)
Theorem toRegex_accepts_segmentwise (template candidate : string) :
  well_shaped (normalize template) = true →
  ∃ re, toRegex template = Some re
        ∧ RegExp_test candidate re = Spec.accepts (normalize template) candidate.
Proof.
  intros Hshape. exists (atoms_of false (normalize template)).
  split; [apply toRegex_atoms|].
  apply Bool.eq_iff_eq_true. unfold Spec.accepts.
  rewrite <- (join_split (normalize template)) at 1.
  apply segments_accept_compiled;
    [apply split_nonempty|apply split_segments_no_slash|done].
Qed.

Lemma toRegex_accepts_segmentwise_witness :
  (RegExp_test "/users/42/posts/7" <$> toRegex "/users/:id/posts/:postId") = Some true
  ∧ (RegExp_test "/users/42/posts" <$> toRegex "/users/:id/posts/:postId") = Some false
  ∧ (RegExp_test "/users/42/posts/7/comments" <$> toRegex "/users/:id/posts/:postId")
    = Some false.
Proof.
  split; [|split].
  - destruct (toRegex_accepts_segmentwise "/users/:id/posts/:postId" "/users/42/posts/7"
                eq_refl)
      as (re & Hre & Htest);
      rewrite Hre; cbn [fmap option_fmap option_map]; rewrite Htest; reflexivity.
  - destruct (toRegex_accepts_segmentwise "/users/:id/posts/:postId" "/users/42/posts"
                eq_refl)
      as (re & Hre & Htest);
      rewrite Hre; cbn [fmap option_fmap option_map]; rewrite Htest; reflexivity.
  - destruct (toRegex_accepts_segmentwise "/users/:id/posts/:postId"
                "/users/42/posts/7/comments" eq_refl) as (re & Hre & Htest);
      rewrite Hre; cbn [fmap option_fmap option_map]; rewrite Htest; reflexivity.
Defined.

(** C7, as first stated, fails: a segment that begins with the parameter
    marker but does not end with the name keeps its remaining text as a
    literal, so [/:id.json] rejects [/foo] although the two have equally many
    segments and the only template segment is a parameter segment. *)
Lemma parameter_segment_counterexample :
  Spec.accepts "/:id.json" "/foo" = true
  ∧ (RegExp_test "/foo" <$> toRegex "/:id.json") = Some false
  ∧ (RegExp_test "/foo.json" <$> toRegex "/:id.json") = Some true.
Proof. split; [|split]; reflexivity. Qed.

(** C1.  The pattern compiled from [/static/*] rejects [/static/a/b/c], and
    a miss on that path under a registry holding the template is answered
    NotFound: the asterisk is escaped with the other special characters, so a
    template free of [:] compiles to a pattern that accepts the text of the
    normalised template and nothing else. *)
Theorem wildcard_template_is_literal :
  (RegExp_test "/static/a/b/c" <$> toRegex "/static/*") = Some false
  ∧ resolve (registry_of [Examples.route "GET" "/static/*"]) "/static/a/b/c"
    = NotFound
  ∧ ∀ template candidate,
      Js.includes ":" (normalize template) = false →
      ∃ re, toRegex template = Some re
            ∧ (RegExp_test candidate re = true ↔ candidate = normalize template).
Proof.
  split; [reflexivity|]. split; [vm_compute; reflexivity|].
  intros template candidate Hcolon. exists (atoms_of false (normalize template)).
  split; [apply toRegex_atoms|].
  rewrite <- (append_empty_r (normalize template)) at 1.
  rewrite atoms_plain by done. cbn [atoms_of]. rewrite test_literal. split.
  - intros (p' & -> & ->%test_nil). by rewrite append_empty_r.
  - intros ->. exists EmptyString. by rewrite append_empty_r.
Qed.

Lemma wildcard_template_is_literal_witness :
  ∃ re, toRegex "/static/*" = Some re
        ∧ (RegExp_test "/static/*" re = true ↔ "/static/*" = normalize "/static/*").
Proof.
  apply (proj2 (proj2 wildcard_template_is_literal) "/static/*" "/static/*").
  reflexivity.
Defined.

End Segments.

(** ** Method sets *)

Section MethodSets.

Lemma Set_add_elem s m m' : m' ∈ Set_add s m ↔ m' ∈ s ∨ m' = m.
Proof.
  unfold Set_add. case_decide.
  - split; [auto|]. by intros [?| ->].
  - rewrite elem_of_app, list_elem_of_singleton. done.
Qed.

Lemma Set_add_NoDup s m : NoDup s → NoDup (Set_add s m).
Proof.
  unfold Set_add. intros Hs. case_decide; [done|].
  apply NoDup_app. split_and!; [done| |apply NoDup_singleton].
  intros x Hx ->%list_elem_of_singleton. done.
Qed.

Lemma Set_adds_elem l s m : m ∈ foldl Set_add s l ↔ m ∈ s ∨ m ∈ l.
Proof.
  revert s. induction l as [|x l IH]; intros s; simpl.
  - rewrite elem_of_nil. tauto.
  - rewrite IH, Set_add_elem, elem_of_cons. tauto.
Qed.

Lemma Set_adds_NoDup l s : NoDup s → NoDup (foldl Set_add s l).
Proof.
  revert s. induction l as [|x l IH]; intros s Hs; simpl; [done|].
  by apply IH, Set_add_NoDup.
Qed.

Lemma Set_add_present s m : m ∈ s → Set_add s m = s.
Proof. intros H. unfold Set_add. by rewrite decide_True. Qed.

Lemma Set_add_fresh s m : m ∉ s → Set_add s m = s ++ [m].
Proof. intros H. unfold Set_add. by rewrite decide_False. Qed.

Lemma Set_adds_add s t x :
  foldl Set_add s (Set_add t x) = Set_add (foldl Set_add s t) x.
Proof.
  destruct (decide (x ∈ t)) as [Hx|Hx].
  - rewrite (Set_add_present t), Set_add_present; [done| |done].
    apply Set_adds_elem. by right.
  - by rewrite (Set_add_fresh t), foldl_app.
Qed.

Lemma Set_adds_adds l s t :
  foldl Set_add s (foldl Set_add t l) = foldl Set_add (foldl Set_add s t) l.
Proof.
  revert t. induction l as [|x l IH]; intros t; simpl; [done|].
  by rewrite IH, Set_adds_add.
Qed.

(** Adding the members of a set built from a list is adding the list. *)
Lemma Set_adds_new l s : foldl Set_add s (Set_new l) = foldl Set_add s l.
Proof. unfold Set_new. by rewrite Set_adds_adds. Qed.

Lemma Set_new_NoDup l : NoDup (Set_new l).
Proof. apply Set_adds_NoDup, NoDup_nil_2. Qed.

Lemma Set_new_elem l m : m ∈ Set_new l ↔ m ∈ l.
Proof. unfold Set_new. rewrite Set_adds_elem, elem_of_nil. tauto. Qed.

End MethodSets.

(** ** The indexing hook *)

Section Index.

Local Open Scope string_scope.
Local Open Scope list_scope.

Lemma includes_iff c s :
  Js.includes c s = true ↔ ∃ pre post, s = pre +:+ String c post.
Proof.
  induction s as [|d s IH]; simpl.
  - split; [done|]. intros (pre & post & H). by destruct pre.
  - rewrite orb_true_iff, IH, Ascii.eqb_eq. split.
    + intros [->|(pre & post & ->)]; [by exists EmptyString, s|].
      by exists (String d pre), post.
    + intros ([|e pre] & post & H).
      * injection H as -> ->. by left.
      * change (String e pre +:+ ?y) with (String e (pre +:+ y)) in H.
        injection H as -> ->. right. eauto.
Qed.

Lemma classify_dynamic p :
  classify p = Dynamic ↔ Js.includes ":" p = true ∨ Js.includes "*" p = true.
Proof.
  unfold classify.
  destruct (Js.includes ":" p), (Js.includes "*" p); simpl; intuition congruence.
Qed.

Lemma onRoute_static route reg :
  classify (normalize (path route)) = Static →
  onRoute route reg =
    Some {| methodsByPath :=
              <[normalize (path route) :=
                  foldl Set_add (default [] (methodsByPath reg !! normalize (path route)))
                    (Js.toUpperCase <$> concat_method (method route))]>
                (methodsByPath reg);
            patternsByHead := patternsByHead reg |}.
Proof. unfold onRoute. intros ->. by rewrite Set_adds_new. Qed.

Lemma onRoute_dynamic route reg :
  classify (normalize (path route)) = Dynamic →
  onRoute route reg =
    Some {| methodsByPath := methodsByPath reg;
            patternsByHead :=
              <[head (normalize (path route)) :=
                  default [] (patternsByHead reg !! head (normalize (path route)))
                  ++ [{| regex := atoms_of false (normalize (path route));
                         methods := Set_new (Js.toUpperCase <$>
                                               concat_method (method route)) |}]]>
                (patternsByHead reg) |}.
Proof.
  unfold onRoute. intros ->.
  by rewrite toRegex_atoms, normalize_fixed.
Qed.

(** The hook never throws. *)
Lemma onRoute_total route reg : is_Some (onRoute route reg).
Proof.
  destruct (classify (normalize (path route))) eqn:E.
  - by rewrite onRoute_static.
  - by rewrite onRoute_dynamic.
Qed.

Lemma onRoutes_total routes reg : is_Some (onRoutes routes reg).
Proof.
  revert reg. induction routes as [|r routes IH]; intros reg; simpl; [done|].
  destruct (onRoute_total r reg) as [reg' ->]. simpl. apply IH.
Qed.

End Index.

(** ** Registration and resolution *)

Section Resolution.

Local Open Scope string_scope.
Local Open Scope list_scope.

(** C3 (as amended).  A normalised path is classified Dynamic exactly when
    the character [:] or [*] occurs anywhere in it, and Static otherwise.  A
    Static path is entered in the exact index and leaves the pattern buckets
    alone; a Dynamic path is compiled and appended to the bucket keyed by its
    first segment and leaves the exact index alone.  In particular [/a:b]
    and [/a*b] are Dynamic. *)
Theorem classify_by_marker_characters (p : string) (route : Route) (reg : Registry) :
  (classify p = Dynamic
   ↔ ∃ pre c post, p = pre +:+ String c post ∧ (c = ":" ∨ c = "*")%char)
  ∧ (classify p = Static
     ↔ ¬ ∃ pre c post, p = pre +:+ String c post ∧ (c = ":" ∨ c = "*")%char)
  ∧ (let q := normalize (path route) in
     let declared := Set_new (Js.toUpperCase <$> concat_method (method route)) in
     ∃ reg', onRoute route reg = Some reg' ∧
       match classify q with
       | Static =>
           (∃ set, methodsByPath reg' !! q = Some set ∧ declared ⊆ set)
           ∧ patternsByHead reg' = patternsByHead reg
       | Dynamic =>
           methodsByPath reg' = methodsByPath reg
           ∧ ∃ re, toRegex q = Some re
               ∧ patternsByHead reg' !! head q
                 = Some (default [] (patternsByHead reg !! head q)
                         ++ [{| regex := re; methods := declared |}])
       end)
  ∧ classify "/a:b" = Dynamic ∧ classify "/a*b" = Dynamic.
Proof.
  assert (classify p = Dynamic
          ↔ ∃ pre c post, p = pre +:+ String c post ∧ (c = ":" ∨ c = "*")%char)
    as Hdyn.
  { rewrite classify_dynamic, !includes_iff. split.
    - intros [(pre & post & ->)|(pre & post & ->)]; eauto 10.
    - intros (pre & c & post & -> & [->| ->]); eauto. }
  split; [done|]. split; [|split; [|done]].
  - rewrite <- Hdyn. destruct (classify p); split; congruence.
  - intros q declared. destruct (classify q) eqn:E.
    + rewrite onRoute_static by done. eexists. split; [done|].
      cbn [methodsByPath patternsByHead]. split; [|done].
      eexists. split; [apply lookup_insert_eq|].
      intros m Hm. apply Set_adds_elem. right. by apply Set_new_elem.
    + rewrite onRoute_dynamic by done. eexists. split; [done|].
      cbn [methodsByPath patternsByHead]. split; [done|].
      eexists. split; [apply toRegex_atoms|].
      subst q. by rewrite lookup_insert_eq, !normalize_fixed.
Qed.

(** C3, as first stated, fails: [/a:b] has no segment that begins with the
    parameter marker, yet the hook classifies it Dynamic and the exact index
    stays without an entry for it. *)
Lemma interior_marker_counterexample :
  Spec.classify "/a:b" = Static
  ∧ classify "/a:b" = Dynamic
  ∧ ((fun reg => methodsByPath reg !! "/a:b")
       <$> onRoute (Examples.route "GET" "/a:b") empty_registry) = Some None.
Proof. split; [|split]; reflexivity. Qed.

Lemma resolve_exact reg rawPath exact :
  methodsByPath reg !! normalize rawPath = Some exact →
  exact ≠ [] →
  resolve reg rawPath = MethodNotAllowed exact.
Proof. intros Hexact Hne. unfold resolve. rewrite Hexact. by destruct exact. Qed.

(** C5.  When the exact index holds a non-empty method set for the
    normalised request path, the handler answers 405 with exactly that set,
    whatever the pattern buckets contain and whatever the request method
    is. *)
Theorem exact_entry_takes_precedence
    (reg : Registry) (reqMethod rawPath : string) (exact : list string) :
  methodsByPath reg !! normalize rawPath = Some exact →
  exact ≠ [] →
  resolve reg rawPath = MethodNotAllowed exact
  ∧ notFoundHandler reg {| req_method := reqMethod; req_url := rawPath |}
    = {| reply_code := 405;
         reply_headers := [("Allow", Js.join ", " exact)];
         reply_payload := sendByStatusCode 405 reqMethod rawPath |}.
Proof.
  intros Hexact Hne. pose proof (resolve_exact _ _ _ Hexact Hne) as Hres.
  split; [done|]. unfold notFoundHandler. cbn [req_url req_method].
  by rewrite Hres.
Qed.

Lemma exact_entry_takes_precedence_witness :
  resolve (registry_of [Examples.get_items; Examples.post_id]) "/items"
  = MethodNotAllowed ["GET"]
  ∧ reply_headers
      (notFoundHandler (registry_of [Examples.get_items; Examples.post_id])
         {| req_method := "PUT"; req_url := "/items" |})
    = [("Allow", "GET")]
  ∧ resolve (registry_of [Examples.get_items_all; Examples.post_item_id])
      "/items/all"
    = MethodNotAllowed ["GET"].
Proof.
  destruct (exact_entry_takes_precedence
              (registry_of [Examples.get_items; Examples.post_id])
              "PUT" "/items" ["GET"]) as [Hres Hreply].
  - vm_compute. reflexivity.
  - discriminate.
  - split; [exact Hres|]. split; [rewrite Hreply; reflexivity|].
    apply (exact_entry_takes_precedence
             (registry_of [Examples.get_items_all; Examples.post_item_id])
             "PUT" "/items/all" ["GET"]).
    + vm_compute. reflexivity.
    + discriminate.
Defined.

Lemma find_nothing {A} (f : A → bool) l :
  Forall (fun x => f x = false) l → List.find f l = None.
Proof.
  intros Hl. induction Hl as [|x l Hx _ IH]; simpl; [done|]. by rewrite Hx.
Qed.

(** C2.  With only POST [/:id] registered, the hook compiles a pattern that
    accepts [/items] but files it under the key [:id]; a miss on [/items]
    selects the bucket [items] and is answered NotFound, where the claim has
    MethodNotAllowed.  No bucket other than the one keyed by the request
    path's first segment is ever scanned: when the exact index has no
    non-empty entry for the path and no entry of that bucket accepts it, the
    answer is NotFound whatever the other buckets hold. *)
Theorem parameter_head_route_is_missed :
  (RegExp_test "/items" <$> toRegex "/:id") = Some true
  ∧ head "/:id" = ":id" ∧ head "/items" = "items"
  ∧ onRoutes [Examples.post_id] empty_registry
    = Some (registry_of [Examples.post_id])
  ∧ resolve (registry_of [Examples.post_id]) "/items" = NotFound
  ∧ ∀ (reg : Registry) (rawPath : string),
      let p := normalize rawPath in
      methodsByPath reg !! p = None ∨ methodsByPath reg !! p = Some [] →
      Forall (fun r => RegExp_test p (regex r) = false)
        (default [] (patternsByHead reg !! head p)) →
      resolve reg rawPath = NotFound.
Proof.
  split; [|split; [|split; [|split; [|split]]]]; try (vm_compute; reflexivity).
  intros reg rawPath p Hexact Hnone. unfold resolve. fold p.
  rewrite (find_nothing _ _ Hnone). by destruct Hexact as [-> | ->].
Qed.

Lemma parameter_head_route_is_missed_witness :
  resolve (registry_of [Examples.post_id]) "/items" = NotFound.
Proof.
  apply (proj2 (proj2 (proj2 (proj2 (proj2 parameter_head_route_is_missed))))
           (registry_of [Examples.post_id]) "/items").
  - left. vm_compute. reflexivity.
  - vm_compute. constructor.
Defined.

End Resolution.

(** ** Accumulation of methods in the exact index *)

Section Accumulation.

Local Open Scope string_scope.
Local Open Scope list_scope.

Lemma declared_methods_cons p r routes :
  declared_methods p (r :: routes)
  = (if decide (normalize (path r) = p)
     then Js.toUpperCase <$> concat_method (method r) else [])
    ++ declared_methods p routes.
Proof. done. Qed.

Lemma declared_methods_elem p routes m :
  m ∈ declared_methods p routes
  ↔ ∃ r m0, r ∈ routes ∧ normalize (path r) = p
            ∧ m0 ∈ concat_method (method r) ∧ m = Js.toUpperCase m0.
Proof.
  unfold declared_methods. rewrite list_elem_of_bind. split.
  - intros (r & Hm & Hr). case_decide; [|by apply elem_of_nil in Hm].
    apply list_elem_of_fmap in Hm as (m0 & -> & Hm0). eauto 10.
  - intros (r & m0 & Hr & Hp & Hm0 & ->). exists r. split; [|done].
    rewrite decide_True by done. apply list_elem_of_fmap. eauto.
Qed.

(** The exact-index entry of a Static path after a run of the hook: the
    methods already there, then those declared for the path, in order. *)
Lemma onRoutes_index routes reg0 p :
  classify p = Static →
  ∃ reg, onRoutes routes reg0 = Some reg
    ∧ default [] (methodsByPath reg !! p)
      = foldl Set_add (default [] (methodsByPath reg0 !! p))
          (declared_methods p routes)
    ∧ (is_Some (methodsByPath reg !! p)
       ↔ is_Some (methodsByPath reg0 !! p)
         ∨ Exists (fun r => normalize (path r) = p) routes).
Proof.
  intros Hp. revert reg0.
  induction routes as [|r routes IH]; intros reg0.
  - exists reg0. split; [done|]. split; [done|]. rewrite Exists_nil. tauto.
  - cbn [onRoutes].
    destruct (classify (normalize (path r))) eqn:E.
    + rewrite onRoute_static by done. cbn [mbind option_bind].
      edestruct IH as (reg & -> & Hd & Hs). exists reg. split; [done|].
      rewrite declared_methods_cons, Exists_cons, foldl_app.
      rewrite Hd, Hs. cbn [methodsByPath]. clear Hd Hs.
      destruct (decide (normalize (path r) = p)) as [->|Hne].
      * rewrite lookup_insert_eq. cbn [default]. split; [done|].
        split; [auto|]. intros _. left. by eexists.
      * rewrite lookup_insert_ne by done. cbn [foldl]. split; [done|]. tauto.
    + rewrite onRoute_dynamic by done. cbn [mbind option_bind].
      edestruct IH as (reg & -> & Hd & Hs). exists reg. split; [done|].
      rewrite declared_methods_cons, Exists_cons, foldl_app.
      rewrite Hd, Hs. cbn [methodsByPath]. clear Hd Hs.
      rewrite decide_False by congruence. split; [done|].
      assert (normalize (path r) ≠ p) by congruence. tauto.
Qed.

(** C6.  Once the declarations have been forwarded, the exact index holds,
    for a Static path declared at least once, one entry: the duplicate-free
    set of the upper-cased methods of all declarations of that path; a miss on
    the path reports that set. *)
Theorem exact_index_accumulates (routes : list Route) (p : string) :
  classify p = Static →
  Exists (fun r => normalize (path r) = p) routes →
  ∃ reg, onRoutes routes empty_registry = Some reg
    ∧ methodsByPath reg !! p = Some (Set_new (declared_methods p routes))
    ∧ NoDup (Set_new (declared_methods p routes))
    ∧ (∀ m, m ∈ Set_new (declared_methods p routes)
            ↔ ∃ r m0, r ∈ routes ∧ normalize (path r) = p
                      ∧ m0 ∈ concat_method (method r) ∧ m = Js.toUpperCase m0)
    ∧ (∀ rawPath, normalize rawPath = p → declared_methods p routes ≠ [] →
         resolve reg rawPath = MethodNotAllowed (Set_new (declared_methods p routes))).
Proof.
  intros Hp Hdecl.
  destruct (onRoutes_index routes empty_registry p Hp) as (reg & Hreg & Hd & Hs).
  exists reg. split; [done|].
  assert (methodsByPath reg !! p = Some (Set_new (declared_methods p routes)))
    as Hentry.
  { destruct Hs as [_ [set Hset]]; [by right|].
    cbn [empty_registry methodsByPath] in Hd.
    rewrite Hset, lookup_empty in Hd. simpl in Hd. by rewrite Hset, Hd. }
  split; [done|]. split; [apply Set_new_NoDup|].
  split; [intros m; by rewrite Set_new_elem, declared_methods_elem|].
  intros rawPath <- Hne.
  apply resolve_exact; [done|].
  intros Hnil. destruct (declared_methods _ routes) as [|m ms] eqn:E; [done|].
  assert (m ∈ Set_new (m :: ms)) as Hm by (apply Set_new_elem; left).
  rewrite Hnil in Hm. by apply elem_of_nil in Hm.
Qed.

Lemma exact_index_accumulates_witness :
  ∃ reg, onRoutes [Examples.get_items; Examples.post_items] empty_registry = Some reg
    ∧ methodsByPath reg !! "/items" = Some ["GET"; "POST"]
    ∧ resolve reg "/items" = MethodNotAllowed ["GET"; "POST"].
Proof.
  destruct (exact_index_accumulates
              [Examples.get_items; Examples.post_items] "/items")
    as (reg & Hreg & Hentry & _ & _ & Hmiss).
  - reflexivity.
  - apply Exists_cons_hd. reflexivity.
  - exists reg. split; [exact Hreg|]. split; [exact Hentry|].
    apply (Hmiss "/items"); [reflexivity|discriminate].
Defined.

Lemma onRoutes_app routes1 routes2 reg :
  onRoutes (routes1 ++ routes2) reg = onRoutes routes1 reg ≫= onRoutes routes2.
Proof.
  revert reg. induction routes1 as [|r routes1 IH]; intros reg; simpl; [done|].
  destruct (onRoute r reg); simpl; [apply IH|done].
Qed.

End Accumulation.

(** ** Lifecycle *)

Section Lifecycle.

Local Open Scope string_scope.
Local Open Scope list_scope.

Lemma keeps_ret {S} (P : S → Prop) : keeps P (ret tt).
Proof. by intros s Hs. Qed.

Lemma keeps_throw {S} (P : S → Prop) e : keeps P (throw e).
Proof. by intros s Hs. Qed.

Lemma keeps_bind {S} (P : S → Prop) (m : Run S unit) (k : unit → Run S unit) :
  keeps P m → (∀ a, keeps P (k a)) → keeps P (bind m k).
Proof.
  intros Hm Hk s Hs. unfold bind. specialize (Hm s Hs).
  destruct (m s) as [[e|a] s']; simpl in *; [done|]. by apply Hk.
Qed.

Lemma keeps_when {S} (P : S → Prop) b (m : Run S unit) :
  keeps P m → keeps P (when b m).
Proof. destruct b; [done|]. intros _. apply keeps_ret. Qed.

Lemma keeps_forEach {S A} (P : S → Prop) (xs : list A) (f : A → Run S unit) :
  (∀ x, keeps P (f x)) → keeps P (forEach xs f).
Proof.
  intros Hf. induction xs as [|x xs IH]; simpl; [apply keeps_ret|].
  apply keeps_bind; [apply Hf|]. by intros _.
Qed.

Lemma keeps_settle (P : Fastify → Prop) effect :
  (∀ rs, keeps P (run_hooks rs)) → keeps P (settle effect).
Proof.
  intros Hhooks. unfold settle. apply keeps_bind; [apply Hhooks|].
  intros _. destruct effect.2; [apply keeps_ret|apply keeps_throw].
Qed.

Lemma keeps_call (P : Fastify → Prop) lib c :
  (∀ rs, keeps P (run_hooks rs)) → keeps P (accept c) → keeps P (call lib c).
Proof.
  intros Hhooks Haccept f Hf. unfold call.
  by apply (keeps_bind P (settle _) (fun _ => accept c));
    [apply keeps_settle|intros _|].
Qed.

Lemma keeps_boot_end (P : Fastify → Prop) lib :
  (∀ rs, keeps P (run_hooks rs)) → keeps P (boot_end lib).
Proof. intros Hhooks f Hf. unfold boot_end. by apply keeps_settle. Qed.

Lemma keeps_install_rest (P : Fastify → Prop) lib o cp m :
  (∀ rs, keeps P (run_hooks rs)) →
  (∀ c, is_index_hook c = false → is_classify_handler c = false →
        keeps P (accept c)) →
  keeps P (install_rest lib o cp m).
Proof.
  intros Hhooks Haccept. unfold install_rest, server_route.
  repeat first
    [ apply keeps_call; [done|apply Haccept; reflexivity]
    | by apply keeps_boot_end
    | apply keeps_when
    | apply keeps_forEach; intros ?
    | apply keeps_bind; [|intros _]
    | apply keeps_ret ].
Qed.

Lemma run_hooks_absent rs : keeps engine_absent (run_hooks rs).
Proof.
  intros f (Hreg & Hhook & Hnf). unfold run_hooks. by rewrite Hhook.
Qed.

Lemma accept_absent c :
  is_index_hook c = false → is_classify_handler c = false →
  keeps engine_absent (accept c).
Proof.
  intros Hc1 Hc2 f (Hreg & Hhook & Hnf). split_and!; simpl; [done|..].
  - by rewrite existsb_app, Hhook; simpl; rewrite Hc1.
  - by rewrite existsb_app, Hnf; simpl; rewrite Hc2.
Qed.

Lemma run_hooks_installed rs : keeps engine_installed (run_hooks rs).
Proof.
  intros f (Hreg & Hhook & Hnf). unfold run_hooks. rewrite Hhook.
  destruct Hreg as [reg Hreg]. rewrite Hreg.
  destruct (onRoutes_total rs reg) as [reg' ->]. by split_and!.
Qed.

Lemma accept_installed c : keeps engine_installed (accept c).
Proof.
  intros f (Hreg & Hhook & Hnf). split_and!; simpl; [done|..].
  - by rewrite existsb_app, Hhook.
  - by rewrite existsb_app, Hnf.
Qed.

Lemma run_hooks_registry rs :
  keeps (fun f => is_Some (f_registry f)) (run_hooks rs).
Proof.
  intros f [reg Hreg]. unfold run_hooks.
  destruct (existsb is_index_hook (f_calls f)); [|by exists reg].
  rewrite Hreg. destruct (onRoutes rs reg) as [reg'|]; [by exists reg'|by exists reg].
Qed.

Lemma accept_registry c : keeps (fun f => is_Some (f_registry f)) (accept c).
Proof. by intros f Hf. Qed.

Lemma configure_absent lib o cp m f :
  truthy (onBadMethod o) = false →
  engine_absent f → engine_absent (configure lib o cp m f).2.
Proof.
  intros Hoff Hf. unfold configure. rewrite Hoff. cbn [when].
  apply (keeps_bind engine_absent (ret tt)); [apply keeps_ret| |done].
  intros _. apply keeps_install_rest; [apply run_hooks_absent|apply accept_absent].
Qed.

Lemma install_miss_engine_registry lib f :
  is_Some (f_registry (install_miss_engine lib f).2).
Proof.
  unfold install_miss_engine. unfold bind at 1. cbn [set_registry modify].
  apply (keeps_bind (fun f => is_Some (f_registry f)) (call lib _)
           (fun _ => call lib _)); [| |by eexists].
  - apply keeps_call; [apply run_hooks_registry|apply accept_registry].
  - intros _. apply keeps_call; [apply run_hooks_registry|apply accept_registry].
Qed.

Lemma call_returns lib c f :
  (call lib c f).1 = inr tt → f_calls (call lib c f).2 = f_calls f ++ [c].
Proof.
  unfold call, settle, bind.
  destruct (run_hooks _ f) as [[e|[]] f1] eqn:Hhooks; [done|].
  assert (f_calls f1 = f_calls f) as Hsame.
  { unfold run_hooks in Hhooks.
    destruct (existsb is_index_hook (f_calls f)); [|by injection Hhooks as <-].
    destruct (f_registry f) as [reg|]; [|by injection Hhooks as <-].
    destruct (onRoutes _ reg); [by injection Hhooks as <-|done]. }
  destruct (on_call lib f c).2; cbn; [by rewrite Hsame|done].
Qed.

Lemma install_miss_engine_returns lib f :
  (install_miss_engine lib f).1 = inr tt →
  engine_installed (install_miss_engine lib f).2.
Proof.
  unfold install_miss_engine, bind. cbn [set_registry modify].
  match goal with
  | |- context [call lib (CAddHook "onRoute" IndexRoutes) ?x] => set (f0 := x)
  end.
  pose proof (call_returns lib (CAddHook "onRoute" IndexRoutes) f0) as Hhook.
  pose proof (keeps_call (fun f => is_Some (f_registry f)) lib
                (CAddHook "onRoute" IndexRoutes)
                run_hooks_registry (accept_registry _) f0 ltac:(by eexists))
    as Hreg1.
  destruct (call lib (CAddHook "onRoute" IndexRoutes) f0) as [[e|[]] f1];
    [done|].
  pose proof (call_returns lib (CSetNotFoundHandler ClassifyMiss) f1) as Hnf.
  pose proof (keeps_call (fun f => is_Some (f_registry f)) lib
                (CSetNotFoundHandler ClassifyMiss)
                run_hooks_registry (accept_registry _) f1 Hreg1) as Hreg2.
  destruct (call lib (CSetNotFoundHandler ClassifyMiss) f1) as [[e|[]] f2];
    [done|].
  intros _. cbn [fst snd] in *. split; [done|].
  rewrite (Hnf eq_refl), (Hhook eq_refl), !existsb_app. cbn.
  by rewrite !orb_true_r.
Qed.

Lemma configure_installed lib o cp m f :
  truthy (onBadMethod o) = true →
  is_Some (f_registry (configure lib o cp m f).2)
  ∧ ((configure lib o cp m f).1 = inr tt →
     engine_installed (configure lib o cp m f).2).
Proof.
  intros Hon. unfold configure. rewrite Hon. cbn [when]. unfold bind.
  pose proof (install_miss_engine_registry lib f) as Hreg.
  pose proof (install_miss_engine_returns lib f) as Hret.
  destruct (install_miss_engine lib f) as [[e|[]] f1]; cbn [fst snd] in *;
    [by split|].
  split.
  - apply (keeps_install_rest (fun f => is_Some (f_registry f)));
      [apply run_hooks_registry|intros; apply accept_registry|done].
  - intros _. apply keeps_install_rest;
      [apply run_hooks_installed|intros; apply accept_installed|by apply Hret].
Qed.

(** C10.  A first [startServer] leaves the facility holding the server
    whether it returns or throws.  When [onBadMethod] is absent or falsy that
    server has no maps, no indexing hook and no classifying not-found
    handler, whatever Fastify does with the other calls; when it is truthy
    the maps exist, and the hook and the handler are both installed whenever
    [startServer] returns normally. *)
Theorem engine_gated_by_onBadMethod (st : Facility) :
  server st = None →
  ∃ f, server (startServer st).2 = Some f
       ∧ (truthy (onBadMethod (opts st)) = false → engine_absent f)
       ∧ (truthy (onBadMethod (opts st)) = true →
          is_Some (f_registry f)
          ∧ ((startServer st).1 = inr tt → engine_installed f)).
Proof.
  intros Hnone. unfold startServer. rewrite Hnone.
  set (f0 := Fastify_new _ _).
  pose proof (configure_absent (fastify st) (opts st) (conf_port st) (mem st) f0)
    as Habsent.
  pose proof (configure_installed (fastify st) (opts st) (conf_port st) (mem st) f0)
    as Hinstalled.
  destruct (configure _ _ _ _ f0) as [res f]. cbn [fst snd set_server server] in *.
  exists f. split; [done|]. split.
  - intros Hoff. by apply Habsent.
  - apply Hinstalled.
Qed.

Lemma engine_gated_by_onBadMethod_witness :
  (∃ f, server (startServer
                  (new_facility Examples.strict (Examples.opts_with JUndefined)
                     JUndefined)).2 = Some f
        ∧ engine_absent f)
  ∧ (∃ f, server (startServer
                    (new_facility Examples.strict (Examples.opts_with (JBool true))
                       JUndefined)).2 = Some f
          ∧ engine_installed f)
  ∧ (∃ f, server (startServer
                    (new_facility Examples.strict
                       (Examples.static_opts_with (JBool true)) JUndefined)).2
          = Some f
          ∧ is_Some (f_registry f)).
Proof.
  split; [|split].
  - destruct (engine_gated_by_onBadMethod
                (new_facility Examples.strict (Examples.opts_with JUndefined)
                   JUndefined) eq_refl) as (f & Hf & Hoff & _).
    exists f. split; [exact Hf|]. apply Hoff. reflexivity.
  - destruct (engine_gated_by_onBadMethod
                (new_facility Examples.strict (Examples.opts_with (JBool true))
                   JUndefined) eq_refl) as (f & Hf & _ & Hon).
    exists f. split; [exact Hf|].
    destruct (Hon eq_refl) as [_ Hreturned]. apply Hreturned. reflexivity.
  - destruct (engine_gated_by_onBadMethod
                (new_facility Examples.strict
                   (Examples.static_opts_with (JBool true)) JUndefined) eq_refl)
      as (f & Hf & _ & Hon).
    exists f. split; [exact Hf|]. by destruct (Hon eq_refl) as [Hmaps _].
Defined.

(** With a Fastify that refuses a second not-found handler, a start with
    both [onBadMethod] and [staticOn404File] set throws; the server stays
    set. *)
Lemma second_not_found_handler_rejects_start :
  (startServer
     (new_facility Examples.strict (Examples.static_opts_with (JBool true))
        JUndefined)).1
  = inl FastifyError.
Proof. reflexivity. Qed.

Lemma register_in_open push st :
  server st = None → register_in push st = (inr tt, set_mem (push (mem st)) st).
Proof. intros H. unfold register_in. by rewrite H. Qed.

Lemma register_in_started push st f :
  server st = Some f →
  register_in push st = (inl ERR_FACS_SERVER_HTTP_ALREADY_INITED, st).
Proof. intros H. unfold register_in. by rewrite H. Qed.

Lemma startServer_sets_server st : is_Some (server (startServer st).2).
Proof.
  unfold startServer. destruct (server st) eqn:E; simpl; [by rewrite E|].
  by destruct (configure _ _ _ _ _).
Qed.

Lemma startServer_keeps_mem st : mem (startServer st).2 = mem st.
Proof.
  unfold startServer. destruct (server st) eqn:E; simpl; [done|].
  by destruct (configure _ _ _ _ _).
Qed.

(** C9.  In the state left by any call of [startServer], each of
    [addRoute], [addDecorator], [addPlugin] and [addHook] throws the
    already-initialised error and changes nothing, so the accumulated lists
    stay as they were, and [startServer] throws the duplicate-start error. *)
Theorem registration_rejected_after_start (st : Facility) :
  let st' := (startServer st).2 in
  (∀ r, addRoute r st' = (inl ERR_FACS_SERVER_HTTP_ALREADY_INITED, st'))
  ∧ (∀ d, addDecorator d st' = (inl ERR_FACS_SERVER_HTTP_ALREADY_INITED, st'))
  ∧ (∀ p, addPlugin p st' = (inl ERR_FACS_SERVER_HTTP_ALREADY_INITED, st'))
  ∧ (∀ name h, addHook name h st' = (inl ERR_FACS_SERVER_HTTP_ALREADY_INITED, st'))
  ∧ startServer st' = (inl ERR_FACS_SERVER_HTTP_CREATE_DUP, st')
  ∧ mem st' = mem st.
Proof.
  intros st'. destruct (startServer_sets_server st) as [f Hf]. fold st' in Hf.
  split_and!; intros;
    try (by apply (register_in_started _ _ f)).
  - unfold startServer. by rewrite Hf.
  - apply startServer_keeps_mem.
Qed.

End Lifecycle.


(** * Further properties *)

(** ** Normalisation: canonical paths, queries and trailing slashes *)

Section NormalizeMore.

Local Open Scope string_scope.

(** X1.  The canonical paths are exactly the fixed points of [normalize]:
    a text is returned unchanged if and only if it is non-empty, has no [?],
    and ends with a slash only when it is the root. *)
Theorem normalize_fixed_points (s : string) :
  normalize s = s
  ↔ s ≠ EmptyString ∧ Js.includes "?" s = false
    ∧ (Js.ends_with "/" s = true → s = "/").
Proof.
  split.
  - intros Hs. rewrite <- Hs.
    split; [apply normalize_nonempty|].
    split; [apply normalize_no_query|apply normalize_trailing].
  - intros (Hne & Hq & Ht). by apply normalize_id.
Qed.

Lemma before_first_app d p q :
  Js.includes d p = false → Js.before_first d (p +:+ String d q) = p.
Proof.
  induction p as [|c p IH]; cbn [Js.includes].
  - intros _. change (Js.before_first d (String d q) = EmptyString).
    cbn [Js.before_first]. by rewrite Ascii.eqb_refl.
  - intros [Hc Hp]%orb_false_iff.
    change (String c p +:+ ?y) with (String c (p +:+ y)).
    cbn [Js.before_first]. by rewrite Hc, IH.
Qed.

Lemma resolve_normalize reg u v :
  normalize u = normalize v → resolve reg u = resolve reg v.
Proof. intros H. unfold resolve. by rewrite H. Qed.

(** X2.  The query component is ignored: appending [?] and any text to a
    path without [?] changes neither its normalised form nor the handler's
    decision. *)
Theorem query_is_ignored (p q : string) (reg : Registry) :
  Js.includes "?" p = false →
  normalize (p +:+ String "?" q) = normalize p
  ∧ resolve reg (p +:+ String "?" q) = resolve reg p.
Proof.
  intros Hp.
  assert (normalize (p +:+ String "?" q) = normalize p) as Hn.
  { unfold normalize. by rewrite before_first_app, (before_first_id _ p). }
  split; [done|]. by apply resolve_normalize.
Qed.

Lemma query_is_ignored_witness :
  normalize "/items?page=2&sort=asc" = normalize "/items"
  ∧ resolve (registry_of [Examples.get_items]) "/items?page=2&sort=asc"
    = resolve (registry_of [Examples.get_items]) "/items".
Proof.
  apply (query_is_ignored "/items" "page=2&sort=asc"). reflexivity.
Defined.

Lemma strip_app_slash s :
  Js.strip_trailing_slashes (s +:+ "/") = Js.strip_trailing_slashes s.
Proof.
  induction s as [|c s IH]; [done|].
  change (String c s +:+ ?y) with (String c (s +:+ y)).
  cbn [Js.strip_trailing_slashes]. by rewrite IH.
Qed.

Lemma includes_app_char c s d :
  Js.includes c (s +:+ String d EmptyString) = Js.includes c s || Ascii.eqb d c.
Proof.
  induction s as [|e s IH]; cbn [Js.includes].
  - change (Js.includes c (String d EmptyString) = false || Ascii.eqb d c).
    cbn [Js.includes orb]. by rewrite orb_false_r.
  - change (String e s +:+ ?y) with (String e (s +:+ y)).
    cbn [Js.includes]. by rewrite IH, orb_assoc.
Qed.

(** X3.  Trailing slashes are ignored: appending a slash to a path without
    [?] changes neither its normalised form nor the handler's decision. *)
Theorem trailing_slash_is_ignored (p : string) (reg : Registry) :
  Js.includes "?" p = false →
  normalize (p +:+ "/") = normalize p
  ∧ resolve reg (p +:+ "/") = resolve reg p.
Proof.
  intros Hp.
  assert (normalize (p +:+ "/") = normalize p) as Hn.
  { assert (Js.includes "?" (p +:+ "/") = false) as Hp'
      by (by rewrite includes_app_char, Hp).
    unfold normalize.
    rewrite (before_first_id _ _ Hp), (before_first_id _ _ Hp').
    destruct p as [|c p]; [done|].
    change (Js.or_else (String c p +:+ "/") "/") with (String c p +:+ "/").
    cbn [Js.or_else]. by rewrite strip_app_slash. }
  split; [done|]. by apply resolve_normalize.
Qed.

Lemma trailing_slash_is_ignored_witness :
  normalize "/a/b/" = normalize "/a/b"
  ∧ resolve (registry_of [Examples.get_items]) "/a/b/"
    = resolve (registry_of [Examples.get_items]) "/a/b".
Proof.
  apply (trailing_slash_is_ignored "/a/b"). reflexivity.
Defined.

End NormalizeMore.

(** ** Compiled patterns: segment boundaries, self-acceptance *)

Section PatternsMore.

Local Open Scope string_scope.
Local Open Scope list_scope.

Lemma test_slash_count p r :
  RegExp_test p r = true → count_char "/" p = slash_atoms r.
Proof.
  revert r. induction p as [|c p IH]; intros r.
  - by destruct r.
  - destruct r as [|[a|] r]; cbn [RegExp_test count_char slash_atoms]; [done|..].
    + intros [Ha H]%andb_true_iff. apply Ascii.eqb_eq in Ha as ->.
      by rewrite (IH _ H).
    + intros [Hc H]%andb_true_iff. apply negb_true_iff in Hc. rewrite Hc.
      apply orb_true_iff in H as [H|H]; by rewrite (IH _ H).
Qed.

Lemma word_not_slash c : is_word c = true → Ascii.eqb c "/" = false.
Proof.
  intros Hw. apply Ascii.eqb_neq. intros ->. done.
Qed.

Lemma atoms_slash_count s b : slash_atoms (atoms_of b s) = count_char "/" s.
Proof.
  revert b. induction s as [|c s IH]; intros b; [done|].
  cbn [atoms_of count_char].
  destruct (b && is_word c) eqn:Hw.
  - apply andb_true_iff in Hw as [_ Hw]. by rewrite (word_not_slash _ Hw), IH.
  - destruct (Ascii.eqb c ":" && _) eqn:Hp.
    + apply andb_true_iff in Hp as [Hc _]. apply Ascii.eqb_eq in Hc as ->.
      cbn [slash_atoms]. by rewrite IH.
    + cbn [slash_atoms]. by rewrite IH.
Qed.

(** X5.  A compiled pattern never matches across a segment boundary: every
    path it accepts has exactly as many slashes as the normalised template,
    whatever the template is. *)
Theorem accepted_path_has_template_slashes (template candidate : string) (re : RegExp) :
  toRegex template = Some re →
  RegExp_test candidate re = true →
  count_char "/" candidate = count_char "/" (normalize template).
Proof.
  rewrite toRegex_atoms. intros [= <-] Htest.
  by rewrite (test_slash_count _ _ Htest), atoms_slash_count.
Qed.

Lemma accepted_path_has_template_slashes_witness :
  count_char "/" "/users/42/posts/7"
  = count_char "/" (normalize "/users/:id/posts/:postId/").
Proof.
  apply (accepted_path_has_template_slashes
           "/users/:id/posts/:postId/" "/users/42/posts/7"
           (atoms_of false "/users/:id/posts/:postId")).
  - vm_compute. reflexivity.
  - vm_compute. reflexivity.
Defined.

Lemma test_not_slash_step c s r :
  RegExp_test (String c s) (ANotSlashPlus :: r)
  = negb (Ascii.eqb c "/")
    && (RegExp_test s (ANotSlashPlus :: r) || RegExp_test s r).
Proof. done. Qed.

Lemma test_char_step c s a r :
  RegExp_test (String c s) (AChar a :: r) = Ascii.eqb a c && RegExp_test s r.
Proof. done. Qed.

Lemma test_own_text s :
  RegExp_test s (atoms_of false s) = true
  ∧ ∀ c, Ascii.eqb c "/" = false →
         RegExp_test (String c s) (ANotSlashPlus :: atoms_of true s) = true.
Proof.
  induction s as [|d s [IH1 IH2]].
  - split; [done|]. intros c Hc. cbn. by rewrite Hc.
  - split.
    + cbn [atoms_of andb].
      destruct (Ascii.eqb d ":" && _) eqn:Hp.
      * apply andb_true_iff in Hp as [Hd _]. apply Ascii.eqb_eq in Hd as ->.
        by apply IH2.
      * cbn [RegExp_test]. by rewrite Ascii.eqb_refl, IH1.
    + intros c Hc. cbn [atoms_of andb]. rewrite test_not_slash_step, Hc.
      cbn [negb andb].
      destruct (is_word d) eqn:Hw.
      * by rewrite (IH2 d (word_not_slash _ Hw)).
      * destruct (Ascii.eqb d ":" && _) eqn:Hp.
        -- apply andb_true_iff in Hp as [Hd _]. apply Ascii.eqb_eq in Hd as ->.
           rewrite (IH2 ":"%char eq_refl). by rewrite orb_true_r.
        -- rewrite test_char_step, Ascii.eqb_refl, IH1. by rewrite orb_true_r.
Qed.

(** X6.  Every compiled pattern accepts the text of its own normalised
    template: a parameter marker and its name are a non-empty run without a
    slash, and every other character stands for itself. *)
Theorem pattern_accepts_own_template (template : string) :
  (RegExp_test (normalize template) <$> toRegex template) = Some true.
Proof.
  rewrite toRegex_atoms. cbn [fmap option_fmap option_map]. f_equal.
  apply test_own_text.
Qed.

End PatternsMore.

(** ** The registry as a function of the declarations *)

Section RegistryMore.

Local Open Scope string_scope.
Local Open Scope list_scope.

Lemma upper_char_idemp c : Js.upper_char (Js.upper_char c) = Js.upper_char c.
Proof. by destruct c as [[] [] [] [] [] [] [] []]. Qed.

Lemma toUpperCase_idemp s : Js.toUpperCase (Js.toUpperCase s) = Js.toUpperCase s.
Proof.
  induction s as [|c s IH]; [done|].
  cbn [Js.toUpperCase]. by rewrite upper_char_idemp, IH.
Qed.

Lemma upper_methods_fixed (ms : list string) m :
  m ∈ Js.toUpperCase <$> ms → Js.toUpperCase m = m.
Proof.
  intros (m0 & -> & _)%list_elem_of_fmap. apply toUpperCase_idemp.
Qed.

Lemma registry_ok_empty : registry_ok empty_registry.
Proof.
  split; intros k v; cbn [empty_registry methodsByPath patternsByHead];
    by rewrite lookup_empty.
Qed.

Lemma onRoute_ok route reg reg' :
  registry_ok reg → onRoute route reg = Some reg' → registry_ok reg'.
Proof.
  intros [Hexact Hbuckets].
  destruct (classify (normalize (path route))) eqn:E.
  - rewrite onRoute_static by done. intros [= <-].
    split; cbn [methodsByPath patternsByHead]; [|done].
    intros p set. destruct (decide (normalize (path route) = p)) as [<-|Hne].
    + rewrite lookup_insert_eq. intros [= <-].
      split; [done|]. split; [apply normalize_fixed|].
      destruct (methodsByPath reg !! normalize (path route)) as [old|] eqn:Hold;
        cbn [default from_option].
      * destruct (Hexact _ _ Hold) as (_ & _ & Hnd & Hup).
        split; [by apply Set_adds_NoDup|].
        intros m [Hm|Hm]%Set_adds_elem; [by apply Hup|].
        by apply (upper_methods_fixed _ _ Hm).
      * split; [apply Set_adds_NoDup, NoDup_nil_2|].
        intros m [Hm|Hm]%Set_adds_elem; [by apply elem_of_nil in Hm|].
        by apply (upper_methods_fixed _ _ Hm).
    + rewrite lookup_insert_ne by done. apply Hexact.
  - rewrite onRoute_dynamic by done. intros [= <-].
    split; cbn [methodsByPath patternsByHead]; [done|].
    intros h bucket.
    destruct (decide (head (normalize (path route)) = h)) as [<-|Hne].
    + rewrite lookup_insert_eq. intros [= <-].
      split; [by destruct (default _ _)|].
      intros pat [Hpat| ->%list_elem_of_singleton]%elem_of_app.
      * destruct (patternsByHead reg !! head (normalize (path route)))
          as [old|] eqn:Hold; cbn [default from_option] in Hpat;
          [|by apply elem_of_nil in Hpat].
        destruct (Hbuckets _ _ Hold) as [_ Hall]. by apply Hall.
      * cbn [methods]. split; [apply Set_new_NoDup|].
        intros m Hm. rewrite Set_new_elem in Hm.
        by apply (upper_methods_fixed _ _ Hm).
    + rewrite lookup_insert_ne by done. apply Hbuckets.
Qed.

Lemma onRoutes_ok routes reg reg' :
  registry_ok reg → onRoutes routes reg = Some reg' → registry_ok reg'.
Proof.
  revert reg. induction routes as [|r routes IH]; intros reg Hok; cbn [onRoutes].
  - by intros [= <-].
  - destruct (onRoute r reg) as [reg1|] eqn:E; [|done]. cbn [mbind option_bind].
    apply IH. by apply (onRoute_ok r reg).
Qed.

(** X7.  Every registry the hook builds from empty maps keeps these
    invariants: the keys of the exact index are normalised Static paths, no
    pattern bucket is empty, and every method set (exact or pattern) is
    duplicate-free and holds upper-cased names only. *)
Theorem built_registry_is_well_formed (routes : list Route) (reg : Registry) :
  onRoutes routes empty_registry = Some reg →
  (∀ p set, methodsByPath reg !! p = Some set →
     classify p = Static ∧ normalize p = p ∧ NoDup set
     ∧ ∀ m, m ∈ set → Js.toUpperCase m = m)
  ∧ (∀ h bucket, patternsByHead reg !! h = Some bucket →
       bucket ≠ []
       ∧ ∀ pat, pat ∈ bucket →
           NoDup (methods pat) ∧ ∀ m, m ∈ methods pat → Js.toUpperCase m = m).
Proof.
  intros H. exact (onRoutes_ok routes empty_registry reg registry_ok_empty H).
Qed.

Lemma built_registry_is_well_formed_witness :
  classify "/items" = Static ∧ normalize "/items" = "/items"
  ∧ NoDup ["GET"; "POST"]
  ∧ ∀ m, m ∈ ["GET"; "POST"] → Js.toUpperCase m = m.
Proof.
  apply (proj1 (built_registry_is_well_formed
                  [Examples.get_items; Examples.post_items; Examples.post_id]
                  (registry_of
                     [Examples.get_items; Examples.post_items; Examples.post_id])
                  ltac:(vm_compute; reflexivity))
               "/items" ["GET"; "POST"]).
  vm_compute. reflexivity.
Defined.

End RegistryMore.

(** ** Resolution as a function of the declarations *)

Section ResolveMore.

Local Open Scope string_scope.
Local Open Scope list_scope.

Lemma filed_under_static h r :
  classify (normalize (path r)) = Static → filed_under h r = false.
Proof. unfold filed_under. by intros ->. Qed.

Lemma filed_under_dynamic h r :
  classify (normalize (path r)) = Dynamic →
  filed_under h r = String.eqb (head (normalize (path r))) h.
Proof. unfold filed_under. by intros ->. Qed.

(** The bucket under [h] after a run of the hook: what was there, then the
    entries of the Dynamic declarations filed under [h], in declaration
    order. *)
Lemma onRoutes_bucket routes reg0 reg h :
  onRoutes routes reg0 = Some reg →
  default [] (patternsByHead reg !! h)
  = default [] (patternsByHead reg0 !! h)
    ++ (pattern_of <$> List.filter (filed_under h) routes).
Proof.
  revert reg0. induction routes as [|r routes IH]; intros reg0; cbn [onRoutes].
  - intros [= <-]. by rewrite app_nil_r.
  - destruct (classify (normalize (path r))) eqn:E.
    + rewrite onRoute_static by done. cbn [mbind option_bind].
      intros H. rewrite (IH _ H). cbn [patternsByHead List.filter].
      by rewrite filed_under_static.
    + rewrite onRoute_dynamic by done. cbn [mbind option_bind].
      intros H. rewrite (IH _ H). cbn [patternsByHead List.filter].
      rewrite filed_under_dynamic by done.
      destruct (String.eqb_spec (head (normalize (path r))) h) as [<-|Hne].
      * rewrite lookup_insert_eq. change (default [] (Some ?x)) with x.
        by rewrite <- app_assoc.
      * by rewrite lookup_insert_ne.
Qed.

Lemma find_fmap_filter {A B} (g : A → B) (keep : A → bool) (f : B → bool) l :
  List.find f (g <$> List.filter keep l)
  = g <$> List.find (fun x => keep x && f (g x)) l.
Proof.
  induction l as [|x l IH]; [done|].
  cbn [List.filter List.find]. destruct (keep x); cbn [andb]; [|done].
  cbn [fmap list_fmap List.find]. by destruct (f (g x)).
Qed.

Lemma onRoutes_dynamic_key routes reg p :
  onRoutes routes empty_registry = Some reg →
  classify p = Dynamic → methodsByPath reg !! p = None.
Proof.
  intros Hreg Hp.
  destruct (onRoutes_ok routes empty_registry reg registry_ok_empty Hreg)
    as [Hexact _].
  destruct (methodsByPath reg !! p) as [set|] eqn:E; [|done].
  destruct (Hexact _ _ E) as [Hs _]. congruence.
Qed.

(** X8.  The handler's decision depends on the declarations alone, read in
    order: a Static path answers with the accumulated methods of all its
    declarations; otherwise the first declaration that is filed under the
    request path's first segment and whose pattern accepts the path answers
    with its own methods only, and methods of later matching declarations
    are not merged in. *)
Theorem resolve_reads_declarations
    (routes : list Route) (reg : Registry) (reqUrl : string) :
  onRoutes routes empty_registry = Some reg →
  resolve reg reqUrl = resolve_declared routes reqUrl.
Proof.
  intros Hreg. unfold resolve, resolve_declared, first_match.
  set (p := normalize reqUrl).
  rewrite (onRoutes_bucket routes empty_registry reg (head p) Hreg).
  cbn [empty_registry patternsByHead]. rewrite lookup_empty.
  cbn [default from_option app].
  rewrite (find_fmap_filter pattern_of (filed_under (head p))
             (fun r => RegExp_test p (regex r))).
  assert (default [] (methodsByPath reg !! p)
          = match classify p with
            | Static => Set_new (declared_methods p routes)
            | Dynamic => []
            end) as Hexact.
  { destruct (classify p) eqn:Hp.
    - destruct (onRoutes_index routes empty_registry p Hp) as (reg' & Hreg' & Hd & _).
      rewrite Hreg in Hreg'. injection Hreg' as <-. rewrite Hd.
      cbn [empty_registry methodsByPath]. by rewrite lookup_empty.
    - by rewrite (onRoutes_dynamic_key routes reg p Hreg Hp). }
  rewrite <- Hexact.
  destruct (methodsByPath reg !! p) as [[|m ms]|]; cbn [default from_option];
    [|done|];
    by destruct (List.find _ routes).
Qed.

Lemma resolve_reads_declarations_witness :
  resolve
    (registry_of [Examples.route "GET" "/items/:id"; Examples.post_item_id])
    "/items/42"
  = MethodNotAllowed ["GET"].
Proof.
  rewrite (resolve_reads_declarations
             [Examples.route "GET" "/items/:id"; Examples.post_item_id]
             (registry_of [Examples.route "GET" "/items/:id"; Examples.post_item_id])
             "/items/42").
  - vm_compute. reflexivity.
  - vm_compute. reflexivity.
Defined.

(** X9.  Pattern buckets keep registration order and one entry per
    declaration: after the hook has seen the declarations, the bucket under a
    key holds exactly the entries of the Dynamic declarations whose first
    segment is that key, in declaration order. *)
Theorem bucket_lists_declarations_in_order
    (routes : list Route) (reg : Registry) (h : string) :
  onRoutes routes empty_registry = Some reg →
  default [] (patternsByHead reg !! h)
  = pattern_of <$> List.filter (filed_under h) routes
  ∧ Forall2 (fun pat r => toRegex (normalize (path r)) = Some (regex pat)
                          ∧ methods pat
                            = Set_new (Js.toUpperCase <$> concat_method (method r)))
      (default [] (patternsByHead reg !! h))
      (List.filter (filed_under h) routes).
Proof.
  intros Hreg.
  rewrite (onRoutes_bucket routes empty_registry reg h Hreg).
  cbn [empty_registry patternsByHead]. rewrite lookup_empty.
  cbn [default from_option app]. split; [done|].
  induction (List.filter (filed_under h) routes) as [|r l IH]; [constructor|].
  cbn [fmap list_fmap]. constructor; [|exact IH].
  split; [|done]. by rewrite toRegex_atoms, normalize_fixed.
Qed.

Lemma bucket_lists_declarations_in_order_witness :
  default []
    (patternsByHead
       (registry_of [Examples.post_item_id; Examples.get_items;
                     Examples.route "GET" "/items/:id/tags"]) !! "items")
  = [pattern_of Examples.post_item_id;
     pattern_of (Examples.route "GET" "/items/:id/tags")].
Proof.
  apply (bucket_lists_declarations_in_order
           [Examples.post_item_id; Examples.get_items;
            Examples.route "GET" "/items/:id/tags"]).
  vm_compute. reflexivity.
Defined.

End ResolveMore.

(** ** Bucket keys of templates with a literal first segment *)

Section HeadMore.

Local Open Scope string_scope.
Local Open Scope list_scope.

Lemma head_normalize p : head (normalize p) = head p.
Proof. unfold head. by rewrite normalize_fixed. Qed.

Lemma first_segment_skip ts : first_segment (EmptyString :: ts) = first_segment ts.
Proof. unfold first_segment. by rewrite filter_cons_False. Qed.

Lemma first_segment_here c t ts : first_segment (String c t :: ts) = String c t.
Proof. unfold first_segment. by rewrite filter_cons_True. Qed.

Lemma first_segment_agree ts cs :
  Spec.segments_accept ts cs = true →
  first_segment ts ≠ EmptyString →
  Js.starts_with ":" (first_segment ts) = false →
  first_segment cs = first_segment ts.
Proof.
  revert cs. induction ts as [|t ts IH]; intros [|c cs]; cbn [Spec.segments_accept];
    [done..|].
  intros [Hseg Hrest]%andb_true_iff. destruct t as [|a t].
  - unfold Spec.segment_accepts in Hseg. cbn [Js.starts_with] in Hseg.
    apply String.eqb_eq in Hseg as <-.
    rewrite !first_segment_skip. by apply IH.
  - rewrite first_segment_here. intros _ Hst.
    unfold Spec.segment_accepts in Hseg. rewrite Hst in Hseg.
    apply String.eqb_eq in Hseg as <-. by rewrite first_segment_here.
Qed.

Lemma head_agreement template candidate :
  well_shaped (normalize template) = true →
  head template ≠ EmptyString →
  Js.starts_with ":" (head template) = false →
  normalize candidate = candidate →
  RegExp_test candidate (atoms_of false (normalize template)) = true →
  head candidate = head template.
Proof.
  intros Hshape Hne Hst Hcand Htest.
  rewrite <- (join_split (normalize template)) in Htest.
  apply segments_accept_compiled in Htest;
    [|apply split_nonempty|apply split_segments_no_slash|done].
  unfold head in *. rewrite Hcand. by apply first_segment_agree.
Qed.

(** X10.  A template whose segments are marker-free or [:name] and whose
    first segment is literal only accepts paths filed under its own bucket
    key: every normalised path its pattern accepts has the template's first
    segment as its own. *)
Theorem accepted_path_shares_literal_head (template candidate : string) (re : RegExp) :
  well_shaped (normalize template) = true →
  head template ≠ EmptyString →
  Js.starts_with ":" (head template) = false →
  normalize candidate = candidate →
  toRegex template = Some re →
  RegExp_test candidate re = true →
  head candidate = head template.
Proof.
  intros Hshape Hne Hst Hcand. rewrite toRegex_atoms. intros [= <-] Htest.
  by apply head_agreement.
Qed.

Lemma accepted_path_shares_literal_head_witness :
  head "/items/42" = head "/items/:id".
Proof.
  apply (accepted_path_shares_literal_head "/items/:id" "/items/42"
           (atoms_of false "/items/:id"));
    first [discriminate | vm_compute; reflexivity].
Defined.

Lemma find_is_Some {A} (f : A → bool) (l : list A) x :
  x ∈ l → f x = true → is_Some (List.find f l).
Proof.
  intros Hx Hf. induction Hx as [x l|x y l _ IH]; cbn [List.find].
  - rewrite Hf. by eexists.
  - destruct (f y); [by eexists|by apply IH].
Qed.

(** X11.  No false 404 for literal-headed patterns: when some forwarded
    Dynamic declaration has a template of marker-free and [:name] segments
    with a literal first segment, and its pattern accepts the normalised
    request path, the handler answers MethodNotAllowed. *)
Theorem literal_head_pattern_is_found
    (routes : list Route) (reg : Registry) (r : Route) (reqUrl : string) :
  onRoutes routes empty_registry = Some reg →
  r ∈ routes →
  classify (normalize (path r)) = Dynamic →
  well_shaped (normalize (path r)) = true →
  head (path r) ≠ EmptyString →
  Js.starts_with ":" (head (path r)) = false →
  RegExp_test (normalize reqUrl) (regex (pattern_of r)) = true →
  ∃ allowed, resolve reg reqUrl = MethodNotAllowed allowed.
Proof.
  intros Hreg Hr Hdyn Hshape Hne Hst Htest.
  assert (head (normalize reqUrl) = head (path r)) as Hhead.
  { apply head_agreement; [done..|apply normalize_fixed|done]. }
  unfold resolve.
  destruct (methodsByPath reg !! normalize reqUrl) as [[|m ms]|]; [|by eexists|].
  all: rewrite (onRoutes_bucket routes empty_registry reg _ Hreg);
    cbn [empty_registry patternsByHead]; rewrite lookup_empty;
    cbn [default from_option app];
    rewrite (find_fmap_filter pattern_of _ (fun pat => RegExp_test _ (regex pat)));
    edestruct (find_is_Some
                 (fun x => filed_under (head (normalize reqUrl)) x
                           && RegExp_test (normalize reqUrl) (regex (pattern_of x)))
                 routes r Hr) as [hit ->];
    [rewrite filed_under_dynamic, head_normalize, Hhead, String.eqb_refl by done;
     exact Htest
    |by eexists].
Qed.

Lemma literal_head_pattern_is_found_witness :
  ∃ allowed,
    resolve (registry_of [Examples.get_items; Examples.post_item_id]) "/items/42/?q=1"
    = MethodNotAllowed allowed.
Proof.
  apply (literal_head_pattern_is_found
           [Examples.get_items; Examples.post_item_id]
           (registry_of [Examples.get_items; Examples.post_item_id])
           Examples.post_item_id "/items/42/?q=1");
    first [ discriminate
          | apply list_elem_of_further, list_elem_of_here
          | vm_compute; reflexivity ].
Defined.

(** X12.  A Static declaration that names no method changes no answer: the
    entry it creates or touches is empty or unchanged, and an empty entry is
    treated like a missing one. *)
Theorem methodless_static_declaration_is_neutral
    (route : Route) (reg reg' : Registry) (reqUrl : string) :
  concat_method (method route) = [] →
  classify (normalize (path route)) = Static →
  onRoute route reg = Some reg' →
  resolve reg' reqUrl = resolve reg reqUrl.
Proof.
  intros Hnone Hstatic. rewrite onRoute_static, Hnone by done.
  intros [= <-]. unfold resolve. cbn [methodsByPath patternsByHead fmap list_fmap foldl].
  destruct (decide (normalize (path route) = normalize reqUrl)) as [->|Hne].
  - rewrite lookup_insert_eq.
    by destruct (methodsByPath reg !! normalize reqUrl) as [[|m ms]|].
  - by rewrite lookup_insert_ne.
Qed.

Lemma methodless_static_declaration_is_neutral_witness :
  resolve
    (registry_of [Examples.post_item_id;
                  {| method := ManyMethods []; url := "/items/42"; handler := JRef 2 |}])
    "/items/42"
  = resolve (registry_of [Examples.post_item_id]) "/items/42".
Proof.
  apply (methodless_static_declaration_is_neutral
           {| method := ManyMethods []; url := "/items/42"; handler := JRef 2 |}
           (registry_of [Examples.post_item_id]));
    vm_compute; reflexivity.
Defined.

End HeadMore.

(** ** The reply of the not-found handler *)

Section ReplyMore.

Local Open Scope string_scope.
Local Open Scope list_scope.

(** X13.  The handler always answers 404 or 405 and always sends a body:
    the body's status code is the reply's, its message quotes the request
    method and the request URL as received (query included), and the [Allow]
    header is set exactly on a 405, to the allowed methods joined by a comma
    and a space. *)
Theorem not_found_reply_shape (reg : Registry) (req : Request) :
  let reply := notFoundHandler reg req in
  (∃ body suffix,
     reply_payload reply = Some body
     ∧ statusCode body = reply_code reply
     ∧ message body
       = "Route " +:+ req_method req +:+ ":" +:+ req_url req +:+ suffix)
  ∧ (resolve reg (req_url req) = NotFound
     → reply_code reply = 404 ∧ reply_headers reply = [])
  ∧ (∀ allowed, resolve reg (req_url req) = MethodNotAllowed allowed
     → reply_code reply = 405
       ∧ reply_headers reply = [("Allow", Js.join ", " allowed)]).
Proof.
  intros reply. subst reply. unfold notFoundHandler.
  destruct (resolve reg (req_url req)) as [|allowed].
  - split; [|split; [done|done]].
    eexists _, " not found". cbn. done.
  - split; [|split; [done|by intros ? [= <-]]].
    eexists _, " method not allowed". cbn. done.
Qed.

End ReplyMore.

(** ** Registration before the start *)

Section RegistrationMore.

Local Open Scope string_scope.
Local Open Scope list_scope.

Lemma register_open x st :
  server st = None →
  register x st = (inr tt, set_mem (extend_mem (mem st) [x]) st).
Proof.
  intros Hs. destruct x; cbn [register];
    unfold addRoute, addDecorator, addPlugin, addHook;
    rewrite register_in_open by done; unfold extend_mem; cbn;
    by rewrite ?app_nil_r.
Qed.

Lemma extend_mem_app m xs ys :
  extend_mem (extend_mem m xs) ys = extend_mem m (xs ++ ys).
Proof.
  unfold extend_mem, plugins_of, routes_of, decorators_of, hooks_of. cbn.
  by rewrite !bind_app, !app_assoc.
Qed.

(** X14.  Before the start every registration succeeds and only appends:
    after any sequence of [addRoute], [addDecorator], [addPlugin] and
    [addHook] calls each of the four lists holds what it held, followed by
    the registrations of its kind in call order, and the server is still
    unset. *)
Theorem registrations_accumulate_in_order (xs : list Registration) (st : Facility) :
  server st = None →
  forEach xs register st = (inr tt, set_mem (extend_mem (mem st) xs) st).
Proof.
  revert st. induction xs as [|x xs IH]; intros st Hs.
  - cbn. unfold extend_mem. cbn. rewrite !app_nil_r. by destruct st as [? ? ? ? []].
  - cbn [forEach]. unfold bind. rewrite register_open by done.
    rewrite IH by done. cbn [mem set_mem]. rewrite extend_mem_app.
    by destruct st.
Qed.

Lemma registrations_accumulate_in_order_witness :
  mem (forEach
         [RegRoute Examples.get_items; RegHook "onRequest" (JRef 7);
          RegRoute Examples.post_id; RegPlugin (JRef 8, JNull)]
         register
         (new_facility Examples.accepting (Examples.opts_with JUndefined) JUndefined)).2
  = {| plugins := [(JRef 8, JNull)];
       routes := [Examples.get_items; Examples.post_id];
       decorators := [];
       hooks := [("onRequest", JRef 7)] |}.
Proof.
  rewrite (registrations_accumulate_in_order
             [RegRoute Examples.get_items; RegHook "onRequest" (JRef 7);
              RegRoute Examples.post_id; RegPlugin (JRef 8, JNull)]
             (new_facility Examples.accepting (Examples.opts_with JUndefined) JUndefined)).
  - reflexivity.
  - reflexivity.
Defined.

End RegistrationMore.

(** ** What [startServer] does to the server, in order *)

Section StartMore.

Local Open Scope string_scope.
Local Open Scope list_scope.

Lemma traces_ret : traces (ret tt) [].
Proof.
  intros f. split_and!; [done..|]. exists []. by rewrite app_nil_r.
Qed.

Lemma traces_throw e : traces (throw e) [].
Proof.
  intros f. split_and!; [done..|]. exists []. by rewrite app_nil_r.
Qed.

Lemma traces_bind (m : Run Fastify unit) (k : unit → Run Fastify unit) l1 l2 :
  traces m l1 → (∀ a, traces (k a) l2) → traces (bind m k) (l1 ++ l2).
Proof.
  intros Hm Hk f. unfold bind.
  destruct (Hm f) as (Hlog & Htrust & acc1 & Hcalls1 & Hpre1 & Hall1).
  destruct (m f) as [[e|[]] f1]; cbn [fst snd] in *.
  - split_and!; [done..|]. exists acc1. split_and!; [done| |done].
    by apply prefix_app_r.
  - destruct (Hk tt f1) as (Hlog2 & Htrust2 & acc2 & Hcalls2 & Hpre2 & Hall2).
    rewrite (Hall1 eq_refl) in Hcalls1.
    split_and!; [congruence..|]. exists (l1 ++ acc2). split_and!.
    + by rewrite Hcalls2, Hcalls1, app_assoc.
    + by apply prefix_app.
    + intros Hret. by rewrite (Hall2 Hret).
Qed.

Lemma traces_when b (m : Run Fastify unit) l :
  traces m l → traces (when b m) (if b then l else []).
Proof. destruct b; [done|]. intros _. apply traces_ret. Qed.

Lemma traces_run_hooks rs : traces (run_hooks rs) [].
Proof.
  intros f. unfold run_hooks.
  destruct (existsb is_index_hook (f_calls f)); [|apply traces_ret].
  destruct (f_registry f) as [reg|]; [|apply traces_ret].
  destruct (onRoutes rs reg); [|apply traces_throw].
  split_and!; [done..|]. exists []. by rewrite app_nil_r.
Qed.

Lemma traces_settle effect : traces (settle effect) [].
Proof.
  unfold settle. apply (traces_bind _ _ [] []); [apply traces_run_hooks|].
  intros _. destruct effect.2; [apply traces_ret|apply traces_throw].
Qed.

Lemma traces_accept c : traces (accept c) [c].
Proof. intros f. split_and!; [done..|]. by exists [c]. Qed.

Lemma traces_call lib c : traces (call lib c) [c].
Proof.
  intros f. unfold call.
  apply (traces_bind (settle _) (fun _ => accept c) [] [c]);
    [apply traces_settle|intros _; apply traces_accept].
Qed.

Lemma traces_boot_end lib : traces (boot_end lib) [].
Proof. intros f. unfold boot_end. apply traces_settle. Qed.

Lemma traces_forEach {A} lib (xs : list A) (g : A → Call) :
  traces (forEach xs (fun x => call lib (g x))) (g <$> xs).
Proof.
  induction xs as [|x xs IH]; [apply traces_ret|].
  cbn [forEach fmap list_fmap].
  apply (traces_bind _ _ [g x]); [apply traces_call|by intros _].
Qed.

Lemma traces_configure st :
  traces (configure (fastify st) (opts st) (conf_port st) (mem st))
    (forwarded_calls st).
Proof.
  unfold configure, install_rest, install_miss_engine, forwarded_calls,
    server_route.
  apply traces_bind; [|intros _].
  { apply traces_when.
    apply (traces_bind _ _ []); [by intros f; split_and!; [..|exists []; rewrite app_nil_r]|].
    intros _. apply (traces_bind _ _ [_]); [apply traces_call|].
    intros _. apply traces_call. }
  apply traces_bind; [|intros _].
  { apply traces_when.
    apply (traces_bind _ _ [_]); [apply traces_call|intros _].
    apply traces_when, traces_call. }
  apply traces_bind; [apply (traces_forEach _ _ (fun p => CRegister p.1 p.2))|intros _].
  apply traces_bind;
    [apply (traces_forEach _ _ (fun d => CDecorate d.1.1 d.1.2 d.2))|intros _].
  apply traces_bind;
    [apply (traces_forEach _ _ (fun h => CAddHook h.1 (UserHandler h.2)))|intros _].
  apply traces_bind; [|intros _].
  { apply traces_when. apply (traces_forEach _ _ CRoute). }
  apply (traces_bind _ _ [_]); [apply traces_call|intros _].
  apply (traces_bind _ _ [_]); [apply traces_call|intros _].
  rewrite <- (app_nil_r (CRoute <$> routes (mem st))).
  apply traces_bind; [apply (traces_forEach _ _ CRoute)|intros _].
  apply traces_boot_end.
Qed.

(** X15.  A first [startServer] creates the server with the [logger] and
    [trustProxy] options and has these calls accepted by it, in this order
    and no others, up to the first one that throws: the indexing hook and the
    classifying handler when [onBadMethod] is truthy; the static plugin and
    its 404 file handler when configured; the registered plugins, then
    decorators, then hooks, each in registration order; the default routes
    when enabled; the registration of the anonymous plugin; [listen] on
    [opts.port], or on the configured port when that is falsy; and, from
    inside that plugin, the registered routes in registration order.  When
    [startServer] returns normally all of them were accepted. *)
Theorem startServer_call_order (st : Facility) :
  server st = None →
  ∃ f, server (startServer st).2 = Some f
       ∧ f_logger f = logger (opts st)
       ∧ f_trustProxy f = trustProxy (opts st)
       ∧ f_calls f `prefix_of` forwarded_calls st
       ∧ ((startServer st).1 = inr tt → f_calls f = forwarded_calls st).
Proof.
  intros Hnone. unfold startServer. rewrite Hnone.
  destruct (traces_configure st
              (Fastify_new (logger (opts st)) (trustProxy (opts st))))
    as (Hlog & Htrust & accepted & Hcalls & Hprefix & Hall).
  destruct (configure _ _ _ _ _) as [res f]. cbn [fst snd set_server server] in *.
  exists f. split_and!; [done..| |]; rewrite Hcalls; [done|].
  intros Hret. by rewrite (Hall Hret).
Qed.

Lemma startServer_call_order_witness :
  ∃ f, server
         (startServer
            (forEach [RegRoute Examples.get_items; RegHook "onRequest" (JRef 7)]
               register
               (new_facility Examples.strict (Examples.opts_with (JBool true))
                  JUndefined)).2).2
       = Some f
       ∧ f_calls f
         = [CAddHook "onRoute" IndexRoutes; CSetNotFoundHandler ClassifyMiss;
            CAddHook "onRequest" (UserHandler (JRef 7));
            CRoute {| method := OneMethod "GET"; url := "/echo"; handler := JRef 0 |};
            CRegisterRoutes; CListen (JNum 8080);
            CRoute Examples.get_items].
Proof.
  destruct (startServer_call_order
              (forEach [RegRoute Examples.get_items; RegHook "onRequest" (JRef 7)]
                 register
                 (new_facility Examples.strict (Examples.opts_with (JBool true))
                    JUndefined)).2
              eq_refl) as (f & Hf & _ & _ & _ & Hcalls).
  exists f. split; [exact Hf|]. rewrite Hcalls; reflexivity.
Defined.

Lemma run_hooks_built rs : keeps hook_built (run_hooks rs).
Proof.
  intros f Hf. unfold run_hooks.
  destruct (existsb is_index_hook (f_calls f)); [|done].
  destruct (f_registry f) as [reg|] eqn:Hreg; [|done].
  destruct (onRoutes rs reg) as [reg'|] eqn:Hrun; [|done].
  intros reg2 [= <-]. destruct (Hf reg Hreg) as [fed Hfed].
  exists (fed ++ rs). rewrite onRoutes_app, Hfed. done.
Qed.

Lemma accept_built c : keeps hook_built (accept c).
Proof. by intros f Hf. Qed.

(** X16.  The maps a started server's not-found handler consults are built
    by the indexing hook alone: whatever route options Fastify runs the hook
    with (declared routes, derived HEAD routes, routes of plugins), and
    whether the start returns or throws, the maps are the result of running
    the hook from empty maps on some sequence of route options. *)
Theorem started_registry_is_hook_built (st : Facility) (f : Fastify) (reg : Registry) :
  server st = None →
  server (startServer st).2 = Some f →
  f_registry f = Some reg →
  ∃ fed, onRoutes fed empty_registry = Some reg.
Proof.
  intros Hnone. unfold startServer. rewrite Hnone.
  set (f0 := Fastify_new _ _).
  assert (hook_built (configure (fastify st) (opts st) (conf_port st) (mem st) f0).2)
    as Hbuilt.
  { unfold configure. apply keeps_bind; [|intros _|done].
    - apply keeps_when. unfold install_miss_engine.
      apply keeps_bind; [|intros _].
      + intros f1 _ reg1 [= <-]. by exists [].
      + apply keeps_bind; [|intros _];
          (apply keeps_call; [apply run_hooks_built|apply accept_built]).
    - apply keeps_install_rest; [apply run_hooks_built|intros; apply accept_built]. }
  destruct (configure _ _ _ _ f0) as [res f1]. cbn [fst snd set_server server] in *.
  intros [= <-]. apply Hbuilt.
Qed.

Lemma started_registry_is_hook_built_witness :
  ∃ fed,
    onRoutes fed empty_registry
    = Some (registry_of
              [{| method := OneMethod "GET"; url := "/echo"; handler := JRef 0 |};
               {| method := OneMethod "HEAD"; url := "/echo"; handler := JRef 0 |}]).
Proof.
  eapply (started_registry_is_hook_built
            (new_facility Examples.strict (Examples.opts_with (JBool true)) JUndefined)).
  - reflexivity.
  - reflexivity.
  - vm_compute. reflexivity.
Defined.

End StartMore.

(** ** The default route and the stop task *)

Section DefaultsMore.

Local Open Scope string_scope.
Local Open Scope list_scope.

(** X17.  Every method declared for a path without [:] and [*] is allowed
    on a miss on that path: once the hook has been run with a declaration,
    such as the default route GET [/echo] that [startServer] forwards when
    [addDefaultRoutes] is truthy, a miss on its path (with or without query
    or trailing slash) is answered 405 with that method, upper-cased, among
    the allowed ones, whatever else the hook was run with before or after. *)
Theorem declared_method_is_allowed
    (routes : list Route) (reg : Registry) (r : Route) (m reqUrl : string) :
  onRoutes routes empty_registry = Some reg →
  r ∈ routes →
  classify (normalize (path r)) = Static →
  m ∈ concat_method (method r) →
  normalize reqUrl = normalize (path r) →
  ∃ allowed, resolve reg reqUrl = MethodNotAllowed allowed
             ∧ Js.toUpperCase m ∈ allowed.
Proof.
  intros Hreg Hr Hstatic Hm Hurl.
  destruct (onRoutes_index routes empty_registry (normalize (path r)) Hstatic)
    as (reg' & Hreg' & Hd & Hs).
  rewrite Hreg in Hreg'. injection Hreg' as <-.
  destruct Hs as [_ [set Hset]].
  { right. apply Exists_exists. by exists r. }
  rewrite Hset in Hd. change (default [] (Some set)) with set in Hd.
  assert (Js.toUpperCase m ∈ set) as Hin.
  { rewrite Hd. apply Set_adds_elem. right.
    apply declared_methods_elem. by exists r, m. }
  exists set. split; [|done].
  apply resolve_exact; [by rewrite Hurl|].
  intros ->. by apply elem_of_nil in Hin.
Qed.

Lemma declared_method_is_allowed_witness :
  ∃ allowed,
    resolve (registry_of (DEFAULT_ROUTES ++ [Examples.post_id; Examples.get_items]))
      "/echo/?value=1"
    = MethodNotAllowed allowed
    ∧ "GET" ∈ allowed.
Proof.
  apply (declared_method_is_allowed
           (DEFAULT_ROUTES ++ [Examples.post_id; Examples.get_items])
           (registry_of (DEFAULT_ROUTES ++ [Examples.post_id; Examples.get_items]))
           {| method := OneMethod "GET"; url := "/echo"; handler := JRef 0 |}
           "GET" "/echo/?value=1");
    first [ apply list_elem_of_here | vm_compute; reflexivity ].
Defined.

(** X18.  The stop task closes the server only when one was started and
    never unsets it: before any start it does nothing, and after a start
    followed by the task the facility still rejects every registration and a
    further start. *)
Theorem stop_task_keeps_server (st : Facility) :
  (server st = None → stop_task st = (false, st))
  ∧ (let started := (startServer st).2 in
     let stopped := (stop_task started).2 in
     (stop_task started).1 = true
     ∧ stopped = started
     ∧ startServer stopped = (inl ERR_FACS_SERVER_HTTP_CREATE_DUP, stopped)
     ∧ ∀ x, register x stopped = (inl ERR_FACS_SERVER_HTTP_ALREADY_INITED, stopped)).
Proof.
  split.
  - intros Hnone. unfold stop_task. by rewrite Hnone.
  - intros started stopped.
    destruct (startServer_sets_server st) as [f Hf]. fold started in Hf.
    assert (stop_task started = (true, started)) as Hstop
      by (unfold stop_task; by rewrite Hf).
    subst stopped. rewrite Hstop. cbn [fst snd]. split_and!; [done..| |].
    + unfold startServer. by rewrite Hf.
    + intros []; cbn [register];
        unfold addRoute, addDecorator, addPlugin, addHook;
        by apply (register_in_started _ _ f).
Qed.

Lemma stop_task_keeps_server_witness :
  stop_task (new_facility Examples.accepting (Examples.opts_with JUndefined) JUndefined)
  = (false, new_facility Examples.accepting (Examples.opts_with JUndefined) JUndefined).
Proof.
  apply (proj1 (stop_task_keeps_server
                  (new_facility Examples.accepting (Examples.opts_with JUndefined) JUndefined))).
  reflexivity.
Defined.

End DefaultsMore.

(** ** Adding declarations *)

Section MonotoneMore.

Local Open Scope string_scope.
Local Open Scope list_scope.

Lemma find_app_Some {A} (f : A → bool) l l' x :
  List.find f l = Some x → List.find f (l ++ l') = Some x.
Proof.
  induction l as [|y l IH]; [done|]. cbn [List.find app].
  by destruct (f y).
Qed.

(** X19.  Further declarations never turn a recognised path into an unknown
    one: if the handler answers MethodNotAllowed for a URL after some
    declarations have been forwarded, it still answers MethodNotAllowed for
    that URL after any further declarations. *)
Theorem more_declarations_never_lose_a_path
    (routes extra : list Route) (reg reg' : Registry)
    (reqUrl : string) (allowed : list string) :
  onRoutes routes empty_registry = Some reg →
  onRoutes (routes ++ extra) empty_registry = Some reg' →
  resolve reg reqUrl = MethodNotAllowed allowed →
  ∃ allowed', resolve reg' reqUrl = MethodNotAllowed allowed'.
Proof.
  intros Hreg Hreg'. rewrite onRoutes_app, Hreg in Hreg'.
  cbn [mbind option_bind] in Hreg'.
  pose proof (onRoutes_ok routes empty_registry reg registry_ok_empty Hreg)
    as [Hexact _].
  unfold resolve. set (p := normalize reqUrl).
  destruct (methodsByPath reg !! p) as [[|m ms]|] eqn:Hold.
  2:{ intros _. destruct (Hexact _ _ Hold) as [Hstatic _].
      destruct (onRoutes_index extra reg p Hstatic) as (reg2 & Hreg2 & Hd & Hs).
      rewrite Hreg' in Hreg2. injection Hreg2 as <-.
      destruct Hs as [_ [set Hset]]; [left; by eexists|].
      rewrite Hset, Hold in Hd. change (default [] (Some ?x)) with x in Hd.
      rewrite Hset. destruct set as [|m' ms']; [|by eexists].
      assert (m ∈ foldl Set_add (m :: ms) (declared_methods p extra)) as Hm
        by (apply Set_adds_elem; left; left).
      rewrite <- Hd in Hm. by apply elem_of_nil in Hm. }
  all: destruct (List.find _ (default [] (patternsByHead reg !! head p)))
         as [hit|] eqn:Hfind; [intros _|done];
       destruct (methodsByPath reg' !! p) as [[|m' ms']|]; try by eexists.
  all: rewrite (onRoutes_bucket extra reg reg' (head p) Hreg');
       rewrite (find_app_Some _ _ _ _ Hfind); by eexists.
Qed.

Lemma more_declarations_never_lose_a_path_witness :
  ∃ allowed',
    resolve
      (registry_of ([Examples.post_item_id]
                    ++ [Examples.route "GET" "/items/42"; Examples.post_id]))
      "/items/42"
    = MethodNotAllowed allowed'.
Proof.
  apply (more_declarations_never_lose_a_path
           [Examples.post_item_id]
           [Examples.route "GET" "/items/42"; Examples.post_id]
           (registry_of [Examples.post_item_id])
           (registry_of ([Examples.post_item_id]
                         ++ [Examples.route "GET" "/items/42"; Examples.post_id]))
           "/items/42" ["POST"]);
    vm_compute; reflexivity.
Defined.

End MonotoneMore.
